(** * GP2040-CE: the gamepad core of [headers/gamepad.h]

    A shallow embedding of the pin mapping record, the bit-test helpers,
    hotkey selection and SOCD policy resolution of [class Gamepad],
    together with the properties the design document states about them.

    Machine integers are values of [Z]; every conversion to a fixed-width
    unsigned type is written as a reduction modulo a power of two. *)

From Stdlib Require Import ZArith List Bool Lia.
Import ListNotations.
Local Open Scope Z_scope.

(** ** Fixed-width unsigned integers *)

Definition wrap (w x : Z) : Z := x mod 2 ^ w.

Definition u8 (x : Z) : Z := wrap 8 x.
Definition u16 (x : Z) : Z := wrap 16 x.
Definition u32 (x : Z) : Z := wrap 32 x.

(** [in_width w x]: [x] is a value of the unsigned type of [w] bits. *)
Definition in_width (w x : Z) : Prop := 0 <= x < 2 ^ w.

(** ** Enumerations ([enums.pb.h]) *)

(** Modelled from the spec: [enums.pb.h] is not among the sources.  The
    header names [INPUT_MODE_HID], [INPUT_MODE_SWITCH] and [INPUT_MODE_PS4];
    the remaining enumerators are the two other output protocols whose
    report accessors the class declares ([getXInputReport],
    [getKeyboardReport]). *)
Inductive InputMode : Set :=
| INPUT_MODE_XINPUT
| INPUT_MODE_SWITCH
| INPUT_MODE_HID
| INPUT_MODE_KEYBOARD
| INPUT_MODE_PS4.

(** Modelled from the spec: [enums.pb.h] is not among the sources.  The
    header names [SOCD_MODE_BYPASS] and [SOCD_MODE_NEUTRAL]; the design
    document lists four policies: Neutral, Up-priority, Second-input
    priority and Bypass. *)
Inductive SOCDMode : Set :=
| SOCD_MODE_UP_PRIORITY
| SOCD_MODE_NEUTRAL
| SOCD_MODE_SECOND_INPUT_PRIORITY
| SOCD_MODE_BYPASS.

(** The D-pad interpretation mode is only stored by this header; it is kept
    as the raw value of its enumeration. *)
Definition DpadMode : Set := Z.

(** A hotkey action is an enumeration value obtained by [static_cast] from
    the integer [HotkeyEntry::action]. *)
Definition GamepadHotkey : Set := Z.

(** Modelled from the spec: the enumerator [HOTKEY_NONE] of [enums.pb.h]
    (not among the sources) is the "none" action; a zero action identifier
    means "slot unused". *)
Definition HOTKEY_NONE : GamepadHotkey := 0.

Definition InputMode_eqb (a b : InputMode) : bool :=
  match a, b with
  | INPUT_MODE_XINPUT, INPUT_MODE_XINPUT
  | INPUT_MODE_SWITCH, INPUT_MODE_SWITCH
  | INPUT_MODE_HID, INPUT_MODE_HID
  | INPUT_MODE_KEYBOARD, INPUT_MODE_KEYBOARD
  | INPUT_MODE_PS4, INPUT_MODE_PS4 => true
  | _, _ => false
  end.

Definition SOCDMode_eqb (a b : SOCDMode) : bool :=
  match a, b with
  | SOCD_MODE_UP_PRIORITY, SOCD_MODE_UP_PRIORITY
  | SOCD_MODE_NEUTRAL, SOCD_MODE_NEUTRAL
  | SOCD_MODE_SECOND_INPUT_PRIORITY, SOCD_MODE_SECOND_INPUT_PRIORITY
  | SOCD_MODE_BYPASS, SOCD_MODE_BYPASS => true
  | _, _ => false
  end.

(** ** Configuration ([config.pb.h]) *)

(** Modelled from the spec: [GamepadOptions] of [config.pb.h] (not among
    the sources) holds the input protocol mode, the SOCD policy and the
    D-pad interpretation mode; these are the three members the setters of
    the class write. *)
Record GamepadOptions : Set := mkGamepadOptions {
  inputMode : InputMode;
  dpadMode : DpadMode;
  socdMode : SOCDMode
}.

(** Modelled from the spec: [HotkeyEntry] of [config.pb.h] (not among the
    sources) holds a required button mask, a required dpad mask, a required
    auxiliary mask and an action identifier. *)
Record HotkeyEntry : Set := mkHotkeyEntry {
  dpadMask : Z;
  action : Z;
  buttonsMask : Z;
  auxMask : Z
}.

(** The masks of an entry fit the parameter types of the helpers they are
    passed to: [pressedButton (uint16_t)], [pressedDpad (uint8_t)] and
    [pressedAux (uint16_t)]. *)
Definition HotkeyEntry_fits (h : HotkeyEntry) : Prop :=
  in_width 16 (buttonsMask h) /\ in_width 8 (dpadMask h) /\
  in_width 16 (auxMask h).

(** ** SOCD policy resolution *)

(** [Gamepad::resolveSOCDMode]. *)
Definition resolveSOCDMode (options : GamepadOptions) : SOCDMode :=
  if SOCDMode_eqb (socdMode options) SOCD_MODE_BYPASS &&
     (InputMode_eqb (inputMode options) INPUT_MODE_HID ||
      InputMode_eqb (inputMode options) INPUT_MODE_SWITCH ||
      InputMode_eqb (inputMode options) INPUT_MODE_PS4)
  then SOCD_MODE_NEUTRAL
  else socdMode options.

(** The protocols that require SOCD-clean input. *)
Definition socdCleanRequired : list InputMode :=
  [INPUT_MODE_HID; INPUT_MODE_SWITCH; INPUT_MODE_PS4].

(** ** Pin mapping *)

Record GamepadButtonMapping : Set := mkMapping {
  pin : Z;
  pinMask : Z;
  buttonMask : Z
}.

Definition PIN_UNASSIGNED : Z := 0xff.

Section PinMapping.

(** The number of GPIO pins of the first bank, a constant of the
    platform SDK. *)
Variable NUM_BANK0_GPIOS : Z.

(** The constructor [GamepadButtonMapping(uint8_t p, uint16_t bm)]. *)
Definition GamepadButtonMapping_new (p bm : Z) : GamepadButtonMapping :=
  let p := u8 p in
  let bm := u16 bm in
  {| pin := if p <? NUM_BANK0_GPIOS then p else 0xff;
     pinMask := if p <? NUM_BANK0_GPIOS then u32 (Z.shiftl 1 p) else 0;
     buttonMask := bm |}.

(** [GamepadButtonMapping::setPin(uint8_t p)]. *)
Definition setPin (p : Z) (m : GamepadButtonMapping) : GamepadButtonMapping :=
  let p := u8 p in
  if p <? NUM_BANK0_GPIOS
  then {| pin := p; pinMask := u32 (Z.shiftl 1 p); buttonMask := buttonMask m |}
  else {| pin := 0xff; pinMask := 0; buttonMask := buttonMask m |}.

End PinMapping.

(** [GamepadButtonMapping::isAssigned]. *)
Definition isAssigned (m : GamepadButtonMapping) : bool :=
  negb (pin m =? 0xff).

(** The pin count of the RP2040. *)
Definition RP2040_NUM_BANK0_GPIOS : Z := 30.

(** The two states a mapping built from pin value [p] may be in. *)
Definition assigned_to (p : Z) (m : GamepadButtonMapping) : Prop :=
  pin m = p /\ pinMask m = Z.shiftl 1 p /\ isAssigned m = true.

Definition unassigned (m : GamepadButtonMapping) : Prop :=
  pin m = PIN_UNASSIGNED /\ pinMask m = 0 /\ isAssigned m = false.

(** ** Controller state ([gamepad/GamepadState.h]) *)

(** Modelled from the spec: [GamepadState] of [gamepad/GamepadState.h]
    (not among the sources).  The members are the five masks the helpers of
    the class read: the resolved dpad, button and auxiliary masks and the
    two as-wired views.  Their widths are those of the helpers' mask
    parameters: 8 bits for the dpad masks, 16 bits for the others. *)
Record GamepadState : Set := mkGamepadState {
  dpad : Z;
  buttons : Z;
  aux : Z;
  dwires : Z;
  bwires : Z
}.

Definition GamepadState_fits (s : GamepadState) : Prop :=
  in_width 8 (dpad s) /\ in_width 16 (buttons s) /\ in_width 16 (aux s) /\
  in_width 8 (dwires s) /\ in_width 16 (bwires s).

(** Modelled from the spec: the dpad mask constants of
    [gamepad/GamepadState.h] (not among the sources); the directional mask
    has four bits: up, down, left, right. *)
Definition GAMEPAD_MASK_UP : Z := Z.shiftl 1 0.
Definition GAMEPAD_MASK_DOWN : Z := Z.shiftl 1 1.
Definition GAMEPAD_MASK_LEFT : Z := Z.shiftl 1 2.
Definition GAMEPAD_MASK_RIGHT : Z := Z.shiftl 1 3.

(** ** Debouncer ([gamepad/GamepadDebouncer.h]) *)

(** Modelled from the spec: the per-input state of [GamepadDebouncer]
    ([gamepad/GamepadDebouncer.h] and the body of [Gamepad::debounce] are
    not among the sources).  Each input has the level last accepted and an
    independent timer: the time at which a level different from the
    accepted one was first observed, if one is being observed now. *)
Record DebouncedInput : Set := mkDebouncedInput {
  accepted : bool;
  pendingSince : option Z
}.

Definition GamepadDebouncer : Set := list DebouncedInput.

(** Modelled from the spec: one sample of one input.  A transition is
    accepted only after the new level has been observed continuously for at
    least [debounceMS]; until then the previously accepted level is
    reported.  A sample at the accepted level ends the observation. *)
Definition debounceInput (debounceMS now : Z) (level : bool)
    (s : DebouncedInput) : DebouncedInput :=
  if Bool.eqb level (accepted s)
  then {| accepted := accepted s; pendingSince := None |}
  else
    let since := match pendingSince s with Some t => t | None => now end in
    if debounceMS <=? now - since
    then {| accepted := level; pendingSince := None |}
    else {| accepted := accepted s; pendingSince := Some since |}.

(** Modelled from the spec: one polling cycle of the debouncer; the inputs
    are filtered independently, each with its own timer. *)
Fixpoint debounceAll (debounceMS now : Z) (levels : list bool)
    (d : GamepadDebouncer) : GamepadDebouncer :=
  match levels, d with
  | level :: levels', s :: d' =>
      debounceInput debounceMS now level s :: debounceAll debounceMS now levels' d'
  | _, _ => d
  end.

(** The state of one input after a sequence of timestamped samples. *)
Fixpoint debounceRun (debounceMS : Z) (samples : list (Z * bool))
    (s : DebouncedInput) : DebouncedInput :=
  match samples with
  | [] => s
  | (now, level) :: rest =>
      debounceRun debounceMS rest (debounceInput debounceMS now level s)
  end.

(** The stabilized level reported after each sample of a sequence. *)
Fixpoint debounceTrace (debounceMS : Z) (samples : list (Z * bool))
    (s : DebouncedInput) : list bool :=
  match samples with
  | [] => []
  | (now, level) :: rest =>
      let s' := debounceInput debounceMS now level s in
      accepted s' :: debounceTrace debounceMS rest s'
  end.

(** The number of level changes along a sequence of reported levels that
    follows the level [prev]. *)
Fixpoint transitions (prev : bool) (levels : list bool) : nat :=
  match levels with
  | [] => O
  | l :: rest =>
      if Bool.eqb l prev then transitions l rest
      else S (transitions l rest)
  end.

(** The time at which the observation [obs] of a level began; [now] when
    nothing was observed before the current sample. *)
Definition observedSince (obs : list (Z * bool)) (now : Z) : Z :=
  match obs with
  | [] => now
  | (t0, _) :: _ => t0
  end.

(** A debounced input that rests at [level]. *)
Definition restingAt (level : bool) : DebouncedInput :=
  {| accepted := level; pendingSince := None |}.

(** What a pending timer stands for: the samples since it was started were
    all at the level that differs from the accepted one. *)
Definition observing (hist : list (Z * bool)) (s : DebouncedInput) : Prop :=
  match pendingSince s with
  | None => True
  | Some t0 =>
      exists before run,
        hist = before ++ (t0, negb (accepted s)) :: run /\
        Forall (fun x => snd x = negb (accepted s)) run
  end.

(** The default argument of the constructor [Gamepad(int debounceMS = 5)]. *)
Definition DEFAULT_DEBOUNCE_MS : Z := 5.

(** ** The controller *)

(** The data members of [class Gamepad].  The wired and profile mapping
    pointers are the entries of the table [gamepadMappings]; the hotkey
    options are the ordered list of chord entries. *)
Record Gamepad : Set := mkGamepad {
  hasAnalogTriggers : bool;
  hasLeftAnalogStick : bool;
  hasRightAnalogStick : bool;
  debouncer : GamepadDebouncer;
  debounceMS : Z;
  rawState : GamepadState;
  state : GamepadState;
  gamepadMappings : list GamepadButtonMapping;
  options : GamepadOptions;
  hotkeyOptions : list HotkeyEntry;
  lastAction : GamepadHotkey
}.

(** Assignments to single members of the controller. *)
Definition with_state (g : Gamepad) (s : GamepadState) : Gamepad :=
  {| hasAnalogTriggers := hasAnalogTriggers g;
     hasLeftAnalogStick := hasLeftAnalogStick g;
     hasRightAnalogStick := hasRightAnalogStick g;
     debouncer := debouncer g;
     debounceMS := debounceMS g;
     rawState := rawState g;
     state := s;
     gamepadMappings := gamepadMappings g;
     options := options g;
     hotkeyOptions := hotkeyOptions g;
     lastAction := lastAction g |}.

Definition with_options (g : Gamepad) (o : GamepadOptions) : Gamepad :=
  {| hasAnalogTriggers := hasAnalogTriggers g;
     hasLeftAnalogStick := hasLeftAnalogStick g;
     hasRightAnalogStick := hasRightAnalogStick g;
     debouncer := debouncer g;
     debounceMS := debounceMS g;
     rawState := rawState g;
     state := state g;
     gamepadMappings := gamepadMappings g;
     options := o;
     hotkeyOptions := hotkeyOptions g;
     lastAction := lastAction g |}.

Definition with_lastAction (g : Gamepad) (a : GamepadHotkey) : Gamepad :=
  {| hasAnalogTriggers := hasAnalogTriggers g;
     hasLeftAnalogStick := hasLeftAnalogStick g;
     hasRightAnalogStick := hasRightAnalogStick g;
     debouncer := debouncer g;
     debounceMS := debounceMS g;
     rawState := rawState g;
     state := state g;
     gamepadMappings := gamepadMappings g;
     options := options g;
     hotkeyOptions := hotkeyOptions g;
     lastAction := a |}.

Definition with_debouncer (g : Gamepad) (d : GamepadDebouncer) : Gamepad :=
  {| hasAnalogTriggers := hasAnalogTriggers g;
     hasLeftAnalogStick := hasLeftAnalogStick g;
     hasRightAnalogStick := hasRightAnalogStick g;
     debouncer := d;
     debounceMS := debounceMS g;
     rawState := rawState g;
     state := state g;
     gamepadMappings := gamepadMappings g;
     options := options g;
     hotkeyOptions := hotkeyOptions g;
     lastAction := lastAction g |}.

(** Modelled from the spec: [Gamepad::debounce] (declared in the header,
    body not among the sources) runs the debouncer of the controller on the
    sampled levels with the interval [debounceMS] of the instance. *)
Definition debounce (now : Z) (levels : list bool) (g : Gamepad) : Gamepad :=
  with_debouncer g (debounceAll (debounceMS g) now levels (debouncer g)).

(** [Gamepad::setInputMode], [Gamepad::setSOCDMode], [Gamepad::setDpadMode]. *)
Definition setInputMode (m : InputMode) (g : Gamepad) : Gamepad :=
  with_options g {| inputMode := m;
                    dpadMode := dpadMode (options g);
                    socdMode := socdMode (options g) |}.

Definition setSOCDMode (m : SOCDMode) (g : Gamepad) : Gamepad :=
  with_options g {| inputMode := inputMode (options g);
                    dpadMode := dpadMode (options g);
                    socdMode := m |}.

Definition setDpadMode (m : DpadMode) (g : Gamepad) : Gamepad :=
  with_options g {| inputMode := inputMode (options g);
                    dpadMode := m;
                    socdMode := socdMode (options g) |}.

(** [Gamepad::getOptions]. *)
Definition getOptions (g : Gamepad) : GamepadOptions := options g.

(** A call of one of the three mode setters. *)
Inductive ModeCall : Set :=
| CallSetInputMode (m : InputMode)
| CallSetSOCDMode (m : SOCDMode)
| CallSetDpadMode (m : DpadMode).

Definition callSetter (c : ModeCall) (g : Gamepad) : Gamepad :=
  match c with
  | CallSetInputMode m => setInputMode m g
  | CallSetSOCDMode m => setSOCDMode m g
  | CallSetDpadMode m => setDpadMode m g
  end.

(** A sequence of setter calls, the head of the list first. *)
Fixpoint callSetters (cs : list ModeCall) (g : Gamepad) : Gamepad :=
  match cs with
  | [] => g
  | c :: rest => callSetters rest (callSetter c g)
  end.

(** The argument of the last call of each setter in a sequence, or the
    given value when the sequence has no such call. *)
Fixpoint lastInputMode (cs : list ModeCall) (before : InputMode) : InputMode :=
  match cs with
  | [] => before
  | CallSetInputMode m :: rest => lastInputMode rest m
  | _ :: rest => lastInputMode rest before
  end.

Fixpoint lastSOCDMode (cs : list ModeCall) (before : SOCDMode) : SOCDMode :=
  match cs with
  | [] => before
  | CallSetSOCDMode m :: rest => lastSOCDMode rest m
  | _ :: rest => lastSOCDMode rest before
  end.

Fixpoint lastDpadMode (cs : list ModeCall) (before : DpadMode) : DpadMode :=
  match cs with
  | [] => before
  | CallSetDpadMode m :: rest => lastDpadMode rest m
  | _ :: rest => lastDpadMode rest before
  end.

(** *** Bit tests *)

(** [Gamepad::pressedButton(const uint16_t mask)]. *)
Definition pressedButton (g : Gamepad) (mask : Z) : bool :=
  let mask := u16 mask in
  Z.land (buttons (state g)) mask =? mask.

(** [Gamepad::activeWireB(const uint16_t mask)]. *)
Definition activeWireB (g : Gamepad) (mask : Z) : bool :=
  let mask := u16 mask in
  Z.land (bwires (state g)) mask =? mask.

(** [Gamepad::pressedDpad(const uint8_t mask)]. *)
Definition pressedDpad (g : Gamepad) (mask : Z) : bool :=
  let mask := u8 mask in
  Z.land (dpad (state g)) mask =? mask.

(** [Gamepad::activeWireD(const uint8_t mask)]. *)
Definition activeWireD (g : Gamepad) (mask : Z) : bool :=
  let mask := u8 mask in
  Z.land (dwires (state g)) mask =? mask.

(** [Gamepad::pressedAux(const uint16_t mask)]. *)
Definition pressedAux (g : Gamepad) (mask : Z) : bool :=
  let mask := u16 mask in
  Z.land (aux (state g)) mask =? mask.

(** [Gamepad::pressedHotkey(const HotkeyEntry hotkey)]. *)
Definition pressedHotkey (g : Gamepad) (hotkey : HotkeyEntry) : bool :=
  negb (action hotkey =? 0) &&
  pressedButton g (buttonsMask hotkey) &&
  pressedDpad g (dpadMask hotkey) &&
  pressedAux g (auxMask hotkey).

(** [Gamepad::selectHotkey(const HotkeyEntry hotkey)]: the two compound
    assignments store into the 16-bit [state.buttons] and the 8-bit
    [state.dpad]; the result is the action of the entry. *)
Definition selectHotkey (g : Gamepad) (hotkey : HotkeyEntry)
    : GamepadHotkey * Gamepad :=
  let s := state g in
  let s1 := {| dpad := dpad s;
               buttons := u16 (Z.land (buttons s) (Z.lnot (buttonsMask hotkey)));
               aux := aux s;
               dwires := dwires s;
               bwires := bwires s |} in
  let s2 := {| dpad := u8 (Z.land (dpad s1) (Z.lnot (dpadMask hotkey)));
               buttons := buttons s1;
               aux := aux s1;
               dwires := dwires s1;
               bwires := bwires s1 |} in
  (action hotkey, with_state g s2).

Definition pressedUp (g : Gamepad) : bool := pressedDpad g GAMEPAD_MASK_UP.
Definition pressedDown (g : Gamepad) : bool := pressedDpad g GAMEPAD_MASK_DOWN.
Definition pressedLeft (g : Gamepad) : bool := pressedDpad g GAMEPAD_MASK_LEFT.
Definition pressedRight (g : Gamepad) : bool := pressedDpad g GAMEPAD_MASK_RIGHT.

(** ** Hotkey engine *)

(** Modelled from the spec: the scan of [Gamepad::hotkey] (its body, in
    [gamepad.cpp], is not among the sources).  The entries are evaluated in
    list order; the first one whose predicate holds is consumed with
    [selectHotkey] and its action returned; without a match the result is
    "none" and the state is untouched. *)
Fixpoint scanHotkeys (g : Gamepad) (entries : list HotkeyEntry)
    : GamepadHotkey * Gamepad :=
  match entries with
  | [] => (HOTKEY_NONE, g)
  | entry :: rest =>
      if pressedHotkey g entry then selectHotkey g entry
      else scanHotkeys g rest
  end.

(** Modelled from the spec: [Gamepad::processHotkeyIfNewAction] (declared
    in the header, body not among the sources).  An action is surfaced to
    the caller only when it differs from the latch [lastAction], which then
    takes the new action. *)
Definition processHotkeyIfNewAction (a : GamepadHotkey) (g : Gamepad)
    : option GamepadHotkey * Gamepad :=
  if a =? lastAction g then (None, g)
  else (Some a, with_lastAction g a).

(** Modelled from the spec: [Gamepad::hotkey], the hotkey step of one
    polling cycle: scan, consume, then surface through the latch. *)
Definition hotkey (g : Gamepad) : option GamepadHotkey * Gamepad :=
  let (a, g') := scanHotkeys g (hotkeyOptions g) in
  processHotkeyIfNewAction a g'.

(** Modelled from the spec: a sequence of polling cycles as the hotkey
    engine sees it.  The resolved state is recomputed every cycle; only the
    latch is carried from one cycle to the next.  The result lists what
    each cycle surfaced. *)
Fixpoint pollCycles (resolved : list GamepadState) (g : Gamepad)
    : list (option GamepadHotkey) * Gamepad :=
  match resolved with
  | [] => ([], g)
  | s :: rest =>
      let (out, g') := hotkey (with_state g s) in
      let (outs, g'') := pollCycles rest g' in
      (out :: outs, g'')
  end.

(** How many cycles of a run dispatched action [a]. *)
Fixpoint dispatches (a : GamepadHotkey) (outs : list (option GamepadHotkey))
    : nat :=
  match outs with
  | [] => O
  | Some b :: rest =>
      if b =? a then S (dispatches a rest) else dispatches a rest
  | None :: rest => dispatches a rest
  end.

(** [entry] is the first entry of [entries] whose chord is satisfied. *)
Definition first_match (g : Gamepad) (entries : list HotkeyEntry)
    (entry : HotkeyEntry) : Prop :=
  exists before after,
    entries = before ++ entry :: after /\
    Forall (fun h => pressedHotkey g h = false) before /\
    pressedHotkey g entry = true.

(** No chord of [entries] is satisfied. *)
Definition no_match (g : Gamepad) (entries : list HotkeyEntry) : Prop :=
  Forall (fun h => pressedHotkey g h = false) entries.

(** In the resolved state [s] the first satisfied chord of the configured
    list is [entry]. *)
Definition chord_held (g : Gamepad) (entry : HotkeyEntry) (s : GamepadState)
    : Prop :=
  first_match (with_state g s) (hotkeyOptions g) entry.

(** In the resolved state [s] no configured chord is satisfied. *)
Definition chord_released (g : Gamepad) (s : GamepadState) : Prop :=
  no_match (with_state g s) (hotkeyOptions g).

(** ** SOCD resolver *)

(** Modelled from the spec: the press-sequence counters of Second-input
    priority, one per direction; the higher value is the more recent
    press. *)
Record PressOrder : Set := mkPressOrder {
  seqUp : Z;
  seqDown : Z;
  seqLeft : Z;
  seqRight : Z
}.

(** Modelled from the spec: the resolution of one opposing pair
    ([first] against [second]).  Without a conflict the pressed bits of the
    pair pass through.  On a conflict: Neutral cancels; Up-priority lets the
    first direction win on the pair that has a priority (the vertical one)
    and cancels on the other; Second-input priority lets the more recent
    press win and cancels on a tie. *)
Definition resolvePair (policy : SOCDMode) (first second : Z)
    (firstWins : bool) (seqFirst seqSecond : Z) (dpadRawMask : Z) : Z :=
  let both := Z.lor first second in
  let pressed := Z.land dpadRawMask both in
  if pressed =? both then
    match policy with
    | SOCD_MODE_UP_PRIORITY => if firstWins then first else 0
    | SOCD_MODE_SECOND_INPUT_PRIORITY =>
        if seqSecond <? seqFirst then first
        else if seqFirst <? seqSecond then second
        else 0
    | _ => 0
    end
  else pressed.

(** Modelled from the spec: the SOCD resolver
    [resolve(dpadRawMask, policy) -> dpadResolvedMask] (its code is not
    among the sources).  Bypass passes the raw mask through; the other
    policies resolve the vertical and the horizontal pair. *)
Definition resolve (dpadRawMask : Z) (policy : SOCDMode) (order : PressOrder)
    : Z :=
  match policy with
  | SOCD_MODE_BYPASS => dpadRawMask
  | _ =>
      Z.lor
        (resolvePair policy GAMEPAD_MASK_UP GAMEPAD_MASK_DOWN true
           (seqUp order) (seqDown order) dpadRawMask)
        (resolvePair policy GAMEPAD_MASK_LEFT GAMEPAD_MASK_RIGHT false
           (seqLeft order) (seqRight order) dpadRawMask)
  end.

(** [has m d]: every bit of [d] is set in the mask [m]. *)
Definition has (m d : Z) : bool := Z.land m d =? d.

(** The vertical and horizontal parts of a dpad mask. *)
Definition vertical (m : Z) : Z :=
  Z.land m (Z.lor GAMEPAD_MASK_UP GAMEPAD_MASK_DOWN).

Definition horizontal (m : Z) : Z :=
  Z.land m (Z.lor GAMEPAD_MASK_LEFT GAMEPAD_MASK_RIGHT).

(** ** Sample configurations *)

Definition ps4_bypass : GamepadOptions :=
  mkGamepadOptions INPUT_MODE_PS4 0 SOCD_MODE_BYPASS.

Definition hid_bypass : GamepadOptions :=
  mkGamepadOptions INPUT_MODE_HID 0 SOCD_MODE_BYPASS.

Definition hid_bypass_analog : GamepadOptions :=
  mkGamepadOptions INPUT_MODE_HID 2 SOCD_MODE_BYPASS.

Definition hid_up_priority : GamepadOptions :=
  mkGamepadOptions INPUT_MODE_HID 0 SOCD_MODE_UP_PRIORITY.

Definition xinput_bypass : GamepadOptions :=
  mkGamepadOptions INPUT_MODE_XINPUT 0 SOCD_MODE_BYPASS.

(** A mapping of pin 6 to the logical bit 0 on the RP2040. *)
Definition mapping_pin6 : GamepadButtonMapping :=
  GamepadButtonMapping_new RP2040_NUM_BANK0_GPIOS 6 1.

(** ** Sample controller *)

(** Up on the dpad with the two buttons of bits 8 and 9 held. *)
Definition chord_state : GamepadState := mkGamepadState 1 768 0 1 768.

Definition idle_state : GamepadState := mkGamepadState 0 0 0 0 0.

(** An unused slot, then two chords that [chord_state] both satisfies. *)
Definition unused_slot : HotkeyEntry := mkHotkeyEntry 0 0 0 0.
Definition chord_up_s1_s2 : HotkeyEntry := mkHotkeyEntry 1 3 768 0.
Definition chord_s1 : HotkeyEntry := mkHotkeyEntry 0 5 256 0.

Definition sample_hotkeys : list HotkeyEntry :=
  [unused_slot; chord_up_s1_s2; chord_s1].

Definition sample_gamepad : Gamepad :=
  mkGamepad false false false [] DEFAULT_DEBOUNCE_MS idle_state chord_state
    [mapping_pin6] hid_bypass sample_hotkeys HOTKEY_NONE.

Definition idle_gamepad : Gamepad := with_state sample_gamepad idle_state.

(** The sample controller with more inputs held than [chord_state] has:
    Down and bit 0 of the buttons are pressed too, and an auxiliary bit. *)
Definition busy_state : GamepadState := mkGamepadState 3 769 4 3 769.

Definition busy_gamepad : Gamepad := with_state sample_gamepad busy_state.

(** A chord on an auxiliary bit alone. *)
Definition chord_aux : HotkeyEntry := mkHotkeyEntry 0 9 0 4.

(** The entry stays satisfied in every resolved state of a run, whether
    or not it is the first satisfied one. *)
Definition satisfied_throughout (g : Gamepad) (entry : HotkeyEntry)
    (resolved : list GamepadState) : bool :=
  forallb (fun s => pressedHotkey (with_state g s) entry) resolved.

(** Two overlapping chords: buttons 0 and 1 together, of action 7, ahead of
    button 0 alone, of action 3. *)
Definition chord_b1_b2 : HotkeyEntry := mkHotkeyEntry 0 7 3 0.
Definition chord_b1 : HotkeyEntry := mkHotkeyEntry 0 3 1 0.

Definition overlap_gamepad : Gamepad :=
  mkGamepad false false false [] DEFAULT_DEBOUNCE_MS idle_state idle_state
    [mapping_pin6] hid_bypass [chord_b1_b2; chord_b1] HOTKEY_NONE.

(** Two chords bound to the same action 3: button 0, and button 1. *)
Definition chord_b2_same_action : HotkeyEntry := mkHotkeyEntry 0 3 2 0.

Definition shared_action_gamepad : Gamepad :=
  mkGamepad false false false [] DEFAULT_DEBOUNCE_MS idle_state idle_state
    [mapping_pin6] hid_bypass [chord_b1; chord_b2_same_action] HOTKEY_NONE.

(** Resolved states with button 0, buttons 0 and 1, and button 1 held. *)
Definition b1_held : GamepadState := mkGamepadState 0 1 0 0 1.
Definition b1_b2_held : GamepadState := mkGamepadState 0 3 0 0 3.
Definition b2_held : GamepadState := mkGamepadState 0 2 0 0 2.

(** ** Proof automation *)

(** Settles a goal about a mask [m] from [H : In m masks] by evaluating it
    at each mask of the list. *)
Ltac each_mask H :=
  simpl in H;
  repeat (destruct H as [H | H]; [subst; vm_compute; try tauto;
                                  repeat split; intros; congruence |]);
  contradiction.

(** * Properties *)

(** ** Fixed-width arithmetic *)

Lemma wrap_small (w x : Z) : in_width w x -> wrap w x = x.
Proof. unfold in_width, wrap. intros H. now apply Z.mod_small. Qed.

Lemma wrap_testbit (w x i : Z) :
  0 <= w -> Z.testbit (wrap w x) i = (i <? w) && Z.testbit x i.
Proof.
  intros Hw. unfold wrap.
  destruct (Z.ltb_spec i w) as [Hlt | Hge]; simpl.
  - destruct (Z.neg_nonneg_cases i) as [Hneg | Hpos].
    + now rewrite !Z.testbit_neg_r.
    + now apply Z.mod_pow2_bits_low.
  - now apply Z.mod_pow2_bits_high.
Qed.

Lemma in_width_testbit_high (w x i : Z) :
  0 <= w -> in_width w x -> w <= i -> Z.testbit x i = false.
Proof.
  intros Hw Hx Hi. rewrite <- (wrap_small w x Hx), wrap_testbit by assumption.
  destruct (Z.ltb_spec i w); [lia | reflexivity].
Qed.

(** ** Enumerations *)

Lemma SOCDMode_eqb_eq (a b : SOCDMode) : SOCDMode_eqb a b = true <-> a = b.
Proof. destruct a, b; simpl; split; intros H; congruence. Qed.

Lemma InputMode_eqb_eq (a b : InputMode) : InputMode_eqb a b = true <-> a = b.
Proof. destruct a, b; simpl; split; intros H; congruence. Qed.

(** ** SOCD policy resolution *)

(** The test of [resolveSOCDMode] on the input mode is membership in the
    SOCD-clean-required set. *)
Lemma clean_required_test (m : InputMode) :
  InputMode_eqb m INPUT_MODE_HID || InputMode_eqb m INPUT_MODE_SWITCH ||
  InputMode_eqb m INPUT_MODE_PS4 = true <-> In m socdCleanRequired.
Proof.
  unfold socdCleanRequired. rewrite !orb_true_iff, !InputMode_eqb_eq. simpl.
  intuition congruence.
Qed.

(** C1. When the input protocol is in the SOCD-clean-required set, a
    configured Bypass policy is resolved to Neutral, and the resolver never
    returns Bypass. *)
Theorem resolveSOCDMode_coerces_bypass :
  forall options : GamepadOptions,
    In (inputMode options) socdCleanRequired ->
    (socdMode options = SOCD_MODE_BYPASS ->
     resolveSOCDMode options = SOCD_MODE_NEUTRAL) /\
    resolveSOCDMode options <> SOCD_MODE_BYPASS.
Proof.
  intros options Hin. apply clean_required_test in Hin.
  unfold resolveSOCDMode. rewrite Hin, andb_true_r.
  split.
  - intros Hs. rewrite Hs. reflexivity.
  - destruct (SOCDMode_eqb (socdMode options) SOCD_MODE_BYPASS) eqn:E.
    + discriminate.
    + intros Hs. apply SOCDMode_eqb_eq in Hs. congruence.
Qed.

Lemma resolveSOCDMode_coerces_bypass_witness :
  In (inputMode ps4_bypass) socdCleanRequired /\
  socdMode ps4_bypass = SOCD_MODE_BYPASS /\
  resolveSOCDMode ps4_bypass = SOCD_MODE_NEUTRAL /\
  resolveSOCDMode ps4_bypass <> SOCD_MODE_BYPASS.
Proof.
  assert (Hin : In (inputMode ps4_bypass) socdCleanRequired)
    by (simpl; right; right; left; reflexivity).
  split; [exact Hin |].
  split; [reflexivity |].
  split.
  - exact (proj1 (resolveSOCDMode_coerces_bypass ps4_bypass Hin) eq_refl).
  - exact (proj2 (resolveSOCDMode_coerces_bypass ps4_bypass Hin)).
Defined.

(** C8. The resolver is a function of the configured policy and the input
    protocol alone: two option values that agree on these two members
    resolve to the same mode, whatever else they hold. *)
Theorem resolveSOCDMode_deterministic :
  forall o1 o2 : GamepadOptions,
    socdMode o1 = socdMode o2 ->
    inputMode o1 = inputMode o2 ->
    resolveSOCDMode o1 = resolveSOCDMode o2.
Proof.
  intros o1 o2 Hs Hi. unfold resolveSOCDMode. rewrite Hs, Hi. reflexivity.
Qed.

Lemma resolveSOCDMode_deterministic_witness :
  socdMode hid_bypass = socdMode hid_bypass_analog /\
  inputMode hid_bypass = inputMode hid_bypass_analog /\
  resolveSOCDMode hid_bypass = resolveSOCDMode hid_bypass_analog.
Proof.
  split; [reflexivity |].
  split; [reflexivity |].
  exact (resolveSOCDMode_deterministic hid_bypass hid_bypass_analog
           eq_refl eq_refl).
Defined.

(** The setters of the other members of the options do not change what
    the resolver returns. *)
Lemma resolveSOCDMode_setDpadMode (g : Gamepad) (m : DpadMode) :
  resolveSOCDMode (options (setDpadMode m g)) = resolveSOCDMode (options g).
Proof. reflexivity. Qed.

(** C10. Outside the coerced case the resolver is the identity: a policy
    other than Bypass is returned unchanged for every input mode, and
    Bypass is returned unchanged for an input mode outside HID, Switch and
    PS4. *)
Theorem resolveSOCDMode_identity_outside_coercion :
  forall options : GamepadOptions,
    (socdMode options <> SOCD_MODE_BYPASS ->
     resolveSOCDMode options = socdMode options) /\
    (socdMode options = SOCD_MODE_BYPASS ->
     ~ In (inputMode options)
          [INPUT_MODE_HID; INPUT_MODE_SWITCH; INPUT_MODE_PS4] ->
     resolveSOCDMode options = SOCD_MODE_BYPASS).
Proof.
  intros options. unfold resolveSOCDMode. split.
  - intros Hs.
    destruct (SOCDMode_eqb (socdMode options) SOCD_MODE_BYPASS) eqn:E.
    + apply SOCDMode_eqb_eq in E. contradiction.
    + reflexivity.
  - intros Hs Hout. fold socdCleanRequired in Hout.
    rewrite <- clean_required_test in Hout.
    apply not_true_is_false in Hout. rewrite Hout, andb_false_r.
    exact Hs.
Qed.

Lemma resolveSOCDMode_identity_outside_coercion_witness :
  socdMode hid_up_priority <> SOCD_MODE_BYPASS /\
  resolveSOCDMode hid_up_priority = SOCD_MODE_UP_PRIORITY /\
  socdMode xinput_bypass = SOCD_MODE_BYPASS /\
  ~ In (inputMode xinput_bypass)
       [INPUT_MODE_HID; INPUT_MODE_SWITCH; INPUT_MODE_PS4] /\
  resolveSOCDMode xinput_bypass = SOCD_MODE_BYPASS.
Proof.
  assert (H1 : socdMode hid_up_priority <> SOCD_MODE_BYPASS)
    by (simpl; discriminate).
  assert (H2 : ~ In (inputMode xinput_bypass)
                    [INPUT_MODE_HID; INPUT_MODE_SWITCH; INPUT_MODE_PS4]).
  { simpl. intros [H | [H | [H | []]]]; discriminate H. }
  split; [exact H1 |].
  split;
    [exact (proj1 (resolveSOCDMode_identity_outside_coercion hid_up_priority) H1) |].
  split; [reflexivity |].
  split; [exact H2 |].
  exact (proj2 (resolveSOCDMode_identity_outside_coercion xinput_bypass)
           eq_refl H2).
Defined.

(** Bypass stays Bypass in XInput and Keyboard mode. *)
Example resolveSOCDMode_bypass_xinput_keyboard :
  forall d,
    resolveSOCDMode (mkGamepadOptions INPUT_MODE_XINPUT d SOCD_MODE_BYPASS)
      = SOCD_MODE_BYPASS /\
    resolveSOCDMode (mkGamepadOptions INPUT_MODE_KEYBOARD d SOCD_MODE_BYPASS)
      = SOCD_MODE_BYPASS.
Proof. intros d. split; reflexivity. Qed.

(** ** Pin mapping *)

Lemma isAssigned_false_iff (m : GamepadButtonMapping) :
  isAssigned m = false <-> pin m = PIN_UNASSIGNED.
Proof.
  unfold isAssigned, PIN_UNASSIGNED.
  rewrite negb_false_iff. apply Z.eqb_eq.
Qed.

Lemma shiftl_one_in_u32 (p : Z) : 0 <= p < 32 -> u32 (Z.shiftl 1 p) = Z.shiftl 1 p.
Proof.
  intros Hp. apply wrap_small. unfold in_width.
  rewrite Z.shiftl_1_l. split.
  - apply Z.pow_nonneg. lia.
  - apply Z.pow_lt_mono_r; lia.
Qed.

Section PinMappingFacts.

Variable NUM_BANK0_GPIOS : Z.
Hypothesis pins_fit_mask : NUM_BANK0_GPIOS <= 32.

Variable p : Z.
Hypothesis p_is_uint8 : in_width 8 p.

Lemma new_in_range (bm : Z) :
  p < NUM_BANK0_GPIOS ->
  assigned_to p (GamepadButtonMapping_new NUM_BANK0_GPIOS p bm).
Proof.
  intros Hlt. unfold assigned_to, GamepadButtonMapping_new, isAssigned, u8.
  rewrite (wrap_small 8 p p_is_uint8). simpl.
  apply Z.ltb_lt in Hlt. rewrite Hlt. apply Z.ltb_lt in Hlt.
  destruct p_is_uint8 as [H0 _].
  repeat split.
  - apply shiftl_one_in_u32. lia.
  - apply negb_true_iff, Z.eqb_neq. lia.
Qed.

Lemma new_out_of_range (bm : Z) :
  NUM_BANK0_GPIOS <= p ->
  unassigned (GamepadButtonMapping_new NUM_BANK0_GPIOS p bm).
Proof.
  intros Hge. unfold unassigned, GamepadButtonMapping_new, isAssigned, u8.
  rewrite (wrap_small 8 p p_is_uint8). simpl.
  apply Z.ltb_ge in Hge. rewrite Hge. repeat split.
Qed.

Lemma setPin_in_range (m : GamepadButtonMapping) :
  p < NUM_BANK0_GPIOS -> assigned_to p (setPin NUM_BANK0_GPIOS p m).
Proof.
  intros Hlt. unfold assigned_to, setPin, isAssigned, u8.
  rewrite (wrap_small 8 p p_is_uint8).
  apply Z.ltb_lt in Hlt. rewrite Hlt. apply Z.ltb_lt in Hlt. simpl.
  destruct p_is_uint8 as [H0 _].
  repeat split.
  - apply shiftl_one_in_u32. lia.
  - apply negb_true_iff, Z.eqb_neq. lia.
Qed.

Lemma setPin_out_of_range (m : GamepadButtonMapping) :
  NUM_BANK0_GPIOS <= p -> unassigned (setPin NUM_BANK0_GPIOS p m).
Proof.
  intros Hge. unfold unassigned, setPin, isAssigned, u8.
  rewrite (wrap_small 8 p p_is_uint8).
  apply Z.ltb_ge in Hge. rewrite Hge. repeat split.
Qed.

End PinMappingFacts.

(** [setPin] leaves the logical bit mask of the mapping alone. *)
Lemma setPin_buttonMask (n p : Z) (m : GamepadButtonMapping) :
  buttonMask (setPin n p m) = buttonMask m.
Proof. unfold setPin. destruct (u8 p <? n); reflexivity. Qed.

(** C2. For a pin count that fits the 32-bit pin mask and every pin value
    [p] of type [uint8_t], the constructor and [setPin] both leave the
    mapping in one of two states: assigned to [p] with mask [1 << p] when
    [p] is below the pin count, otherwise unassigned with the sentinel pin
    [0xff] and a zero mask, which selects no bit of any sampled pin levels.
    [isAssigned] is false exactly at the sentinel. *)
Theorem mapping_assigned_or_unassigned :
  forall (NUM_BANK0_GPIOS p bm : Z) (m : GamepadButtonMapping),
    NUM_BANK0_GPIOS <= 32 ->
    in_width 8 p ->
    (p < NUM_BANK0_GPIOS ->
     assigned_to p (GamepadButtonMapping_new NUM_BANK0_GPIOS p bm) /\
     assigned_to p (setPin NUM_BANK0_GPIOS p m)) /\
    (NUM_BANK0_GPIOS <= p ->
     unassigned (GamepadButtonMapping_new NUM_BANK0_GPIOS p bm) /\
     unassigned (setPin NUM_BANK0_GPIOS p m) /\
     forall levels : Z,
       Z.land levels (pinMask (GamepadButtonMapping_new NUM_BANK0_GPIOS p bm)) = 0 /\
       Z.land levels (pinMask (setPin NUM_BANK0_GPIOS p m)) = 0) /\
    (forall m' : GamepadButtonMapping,
       isAssigned m' = false <-> pin m' = PIN_UNASSIGNED).
Proof.
  intros n p bm m Hn Hp. split; [| split].
  - intros Hlt. split.
    + now apply new_in_range.
    + now apply setPin_in_range.
  - intros Hge.
    pose proof (new_out_of_range n p Hp bm Hge) as Hnew.
    pose proof (setPin_out_of_range n p Hp m Hge) as Hset.
    split; [exact Hnew | split; [exact Hset |]].
    intros levels.
    destruct Hnew as (_ & -> & _). destruct Hset as (_ & -> & _).
    now rewrite Z.land_0_r.
  - apply isAssigned_false_iff.
Qed.

Lemma mapping_assigned_or_unassigned_witness :
  (RP2040_NUM_BANK0_GPIOS <= 32 /\ in_width 8 2 /\
   2 < RP2040_NUM_BANK0_GPIOS /\
   assigned_to 2 (GamepadButtonMapping_new RP2040_NUM_BANK0_GPIOS 2 1) /\
   assigned_to 2 (setPin RP2040_NUM_BANK0_GPIOS 2 mapping_pin6)) /\
  (in_width 8 255 /\ RP2040_NUM_BANK0_GPIOS <= 255 /\
   unassigned (GamepadButtonMapping_new RP2040_NUM_BANK0_GPIOS 255 1) /\
   unassigned (setPin RP2040_NUM_BANK0_GPIOS 255 mapping_pin6)).
Proof.
  assert (Hn : RP2040_NUM_BANK0_GPIOS <= 32) by (unfold RP2040_NUM_BANK0_GPIOS; lia).
  assert (H2 : in_width 8 2) by (unfold in_width; simpl; lia).
  assert (H255 : in_width 8 255) by (unfold in_width; simpl; lia).
  assert (Hlt : 2 < RP2040_NUM_BANK0_GPIOS) by (unfold RP2040_NUM_BANK0_GPIOS; lia).
  assert (Hge : RP2040_NUM_BANK0_GPIOS <= 255) by (unfold RP2040_NUM_BANK0_GPIOS; lia).
  split.
  - split; [exact Hn | split; [exact H2 | split; [exact Hlt |]]].
    exact (proj1 (mapping_assigned_or_unassigned
                    RP2040_NUM_BANK0_GPIOS 2 1 mapping_pin6 Hn H2) Hlt).
  - split; [exact H255 | split; [exact Hge |]].
    pose proof (proj1 (proj2 (mapping_assigned_or_unassigned
                    RP2040_NUM_BANK0_GPIOS 255 1 mapping_pin6 Hn H255)) Hge)
      as (Hnew & Hset & _).
    split; [exact Hnew | exact Hset].
Defined.

(** Pin 255 and pin 30 are unassigned on the RP2040; pin 29 is the last
    assignable pin. *)
Example mapping_rp2040_samples :
  isAssigned (GamepadButtonMapping_new RP2040_NUM_BANK0_GPIOS 255 1) = false /\
  pinMask (GamepadButtonMapping_new RP2040_NUM_BANK0_GPIOS 255 1) = 0 /\
  isAssigned (GamepadButtonMapping_new RP2040_NUM_BANK0_GPIOS 30 1) = false /\
  GamepadButtonMapping_new RP2040_NUM_BANK0_GPIOS 29 1 = mkMapping 29 536870912 1.
Proof. repeat split. Qed.

(** ** Hotkey predicate and scan *)

(** The predicate on the masks as the helpers receive them. *)
Lemma pressedHotkey_converted (g : Gamepad) (h : HotkeyEntry) :
  pressedHotkey g h = true <->
  action h <> 0 /\
  Z.land (buttons (state g)) (u16 (buttonsMask h)) = u16 (buttonsMask h) /\
  Z.land (dpad (state g)) (u8 (dpadMask h)) = u8 (dpadMask h) /\
  Z.land (aux (state g)) (u16 (auxMask h)) = u16 (auxMask h).
Proof.
  unfold pressedHotkey, pressedButton, pressedDpad, pressedAux.
  rewrite !andb_true_iff, negb_true_iff, Z.eqb_neq, !Z.eqb_eq.
  tauto.
Qed.

Lemma pressedHotkey_contained (g : Gamepad) (h : HotkeyEntry) :
  HotkeyEntry_fits h ->
  pressedHotkey g h = true <->
  action h <> 0 /\
  Z.land (buttons (state g)) (buttonsMask h) = buttonsMask h /\
  Z.land (dpad (state g)) (dpadMask h) = dpadMask h /\
  Z.land (aux (state g)) (auxMask h) = auxMask h.
Proof.
  intros (Hb & Hd & Ha). rewrite pressedHotkey_converted.
  unfold u16, u8.
  rewrite (wrap_small _ _ Hb), (wrap_small _ _ Hd), (wrap_small _ _ Ha).
  tauto.
Qed.

(** An entry without an action never matches. *)
Lemma pressedHotkey_unassigned (g : Gamepad) (h : HotkeyEntry) :
  action h = 0 -> pressedHotkey g h = false.
Proof. intros H. unfold pressedHotkey. rewrite H. reflexivity. Qed.

Lemma scanHotkeys_skips (g : Gamepad) (before rest : list HotkeyEntry) :
  Forall (fun h => pressedHotkey g h = false) before ->
  scanHotkeys g (before ++ rest) = scanHotkeys g rest.
Proof.
  induction 1 as [| h before Hh _ IH]; simpl.
  - reflexivity.
  - rewrite Hh. exact IH.
Qed.

Lemma scanHotkeys_first_match (g : Gamepad) (entries : list HotkeyEntry)
    (entry : HotkeyEntry) :
  first_match g entries entry ->
  scanHotkeys g entries = selectHotkey g entry.
Proof.
  intros (before & after & -> & Hbefore & Hentry).
  rewrite scanHotkeys_skips by assumption.
  simpl. rewrite Hentry. reflexivity.
Qed.

Lemma scanHotkeys_no_match (g : Gamepad) (entries : list HotkeyEntry) :
  no_match g entries -> scanHotkeys g entries = (HOTKEY_NONE, g).
Proof.
  intros H. rewrite <- (app_nil_r entries).
  now rewrite scanHotkeys_skips.
Qed.

Lemma match_or_not (g : Gamepad) (entries : list HotkeyEntry) :
  (exists entry, first_match g entries entry) \/ no_match g entries.
Proof.
  induction entries as [| h rest IH].
  - right. constructor.
  - destruct (pressedHotkey g h) eqn:Hh.
    + left. exists h, [], rest. repeat split; [constructor | exact Hh].
    + destruct IH as [(entry & before & after & -> & Hb & He) | Hnone].
      * left. exists entry, (h :: before), after.
        repeat split; [constructor; assumption | exact He].
      * right. constructor; assumption.
Qed.

(** The first satisfied entry is unique as a position of the list. *)
Lemma first_match_unique (g : Gamepad) (entries : list HotkeyEntry)
    (e1 e2 : HotkeyEntry) :
  first_match g entries e1 -> first_match g entries e2 -> e1 = e2.
Proof.
  intros (b1 & a1 & -> & Hb1 & He1) (b2 & a2 & Heq & Hb2 & He2).
  revert b2 Heq Hb2.
  induction Hb1 as [| h b1 Hh _ IH]; intros b2 Heq Hb2.
  - destruct b2 as [| h2 b2]; simpl in Heq.
    + congruence.
    + injection Heq as -> _. inversion Hb2; congruence.
  - destruct b2 as [| h2 b2]; simpl in Heq.
    + injection Heq as -> _. congruence.
    + injection Heq as -> Heq. inversion Hb2; subst. eapply IH; eassumption.
Qed.

(** C3. An entry whose masks fit the helpers' parameters matches exactly
    when its action is nonzero and each of its three masks is contained in
    the corresponding state mask.  The scan returns the action of the first
    matching entry in list order and consumes that entry only; without a
    match it returns "none" and leaves the controller alone; one of the two
    cases always applies. *)
Theorem hotkey_first_match_wins :
  forall (g : Gamepad) (entries : list HotkeyEntry),
    (forall h : HotkeyEntry,
       HotkeyEntry_fits h ->
       pressedHotkey g h = true <->
       action h <> 0 /\
       Z.land (buttons (state g)) (buttonsMask h) = buttonsMask h /\
       Z.land (dpad (state g)) (dpadMask h) = dpadMask h /\
       Z.land (aux (state g)) (auxMask h) = auxMask h) /\
    (forall entry : HotkeyEntry,
       first_match g entries entry ->
       fst (scanHotkeys g entries) = action entry /\
       scanHotkeys g entries = selectHotkey g entry) /\
    (no_match g entries -> scanHotkeys g entries = (HOTKEY_NONE, g)) /\
    ((exists entry, first_match g entries entry) \/ no_match g entries).
Proof.
  intros g entries. split; [| split; [| split]].
  - intros h Hfit. now apply pressedHotkey_contained.
  - intros entry Hfirst.
    rewrite (scanHotkeys_first_match g entries entry Hfirst).
    split; reflexivity.
  - apply scanHotkeys_no_match.
  - apply match_or_not.
Qed.

Lemma hotkey_first_match_wins_witness :
  HotkeyEntry_fits chord_up_s1_s2 /\
  pressedHotkey sample_gamepad chord_up_s1_s2 = true /\
  (action chord_up_s1_s2 <> 0 /\
   Z.land (buttons (state sample_gamepad)) (buttonsMask chord_up_s1_s2)
     = buttonsMask chord_up_s1_s2 /\
   Z.land (dpad (state sample_gamepad)) (dpadMask chord_up_s1_s2)
     = dpadMask chord_up_s1_s2 /\
   Z.land (aux (state sample_gamepad)) (auxMask chord_up_s1_s2)
     = auxMask chord_up_s1_s2) /\
  first_match sample_gamepad sample_hotkeys chord_up_s1_s2 /\
  fst (scanHotkeys sample_gamepad sample_hotkeys) = 3 /\
  no_match idle_gamepad sample_hotkeys /\
  scanHotkeys idle_gamepad sample_hotkeys = (HOTKEY_NONE, idle_gamepad).
Proof.
  assert (Hfit : HotkeyEntry_fits chord_up_s1_s2).
  { unfold HotkeyEntry_fits, in_width. simpl. lia. }
  assert (Hfirst : first_match sample_gamepad sample_hotkeys chord_up_s1_s2).
  { exists [unused_slot], [chord_s1].
    split; [reflexivity | split; [| reflexivity]].
    constructor; [reflexivity | constructor]. }
  assert (Hnone : no_match idle_gamepad sample_hotkeys).
  { repeat constructor. }
  split; [exact Hfit |].
  split; [reflexivity |].
  split.
  { exact (proj1 (proj1 (hotkey_first_match_wins sample_gamepad sample_hotkeys)
                    chord_up_s1_s2 Hfit) eq_refl). }
  split; [exact Hfirst |].
  split.
  { exact (proj1 (proj1 (proj2 (hotkey_first_match_wins sample_gamepad
                                  sample_hotkeys)) chord_up_s1_s2 Hfirst)). }
  split; [exact Hnone |].
  exact (proj1 (proj2 (proj2 (hotkey_first_match_wins idle_gamepad
                                sample_hotkeys))) Hnone).
Defined.

(** A later entry that is satisfied too does not fire: the scan of the
    sample list consumes the chord of action 3 and leaves bit 8 to nobody
    else. *)
Example scanHotkeys_sample :
  pressedHotkey sample_gamepad chord_s1 = true /\
  fst (scanHotkeys sample_gamepad sample_hotkeys) = 3 /\
  state (snd (scanHotkeys sample_gamepad sample_hotkeys))
    = mkGamepadState 0 0 0 1 768.
Proof. repeat split. Qed.

(** A mask wider than the helper's parameter is compared on its low bits
    only: bit 16 is dropped by the conversion to [uint16_t]. *)
Example pressedHotkey_wide_mask :
  pressedHotkey idle_gamepad (mkHotkeyEntry 0 7 65536 0) = true.
Proof. reflexivity. Qed.

(** ** Hotkey consumption *)

Lemma cleared_testbit (w b m i : Z) :
  0 <= w ->
  Z.testbit m i = true ->
  Z.testbit (wrap w (Z.land b (Z.lnot m))) i = false.
Proof.
  intros Hw Hm.
  destruct (Z.neg_nonneg_cases i) as [Hneg | Hpos].
  - now rewrite Z.testbit_neg_r.
  - rewrite wrap_testbit, Z.land_spec, Z.lnot_spec, Hm by assumption.
    simpl. now rewrite andb_false_r, andb_false_r.
Qed.

Lemma cleared_land (w b m : Z) :
  0 <= w -> Z.land (wrap w (Z.land b (Z.lnot m))) m = 0.
Proof.
  intros Hw. apply Z.bits_inj'. intros i Hi.
  rewrite Z.land_spec, Z.bits_0.
  destruct (Z.testbit m i) eqn:Hm.
  - now rewrite cleared_testbit.
  - apply andb_false_r.
Qed.

(** On a value of the width, clearing is [Z.ldiff]: the bits outside the
    mask keep their value. *)
Lemma cleared_ldiff (w b m : Z) :
  0 <= w -> in_width w b -> wrap w (Z.land b (Z.lnot m)) = Z.ldiff b m.
Proof.
  intros Hw Hb. apply Z.bits_inj'. intros i Hi.
  rewrite wrap_testbit, Z.land_spec, Z.lnot_spec, Z.ldiff_spec by assumption.
  destruct (Z.ltb_spec i w) as [Hlt | Hge]; simpl.
  - reflexivity.
  - now rewrite (in_width_testbit_high w b i Hw Hb Hge).
Qed.

(** C4. Consuming an entry returns its action and leaves none of its
    required button bits in the resolved button mask and none of its
    required dpad bits in the resolved dpad mask. *)
Theorem selectHotkey_consumes_chord :
  forall (g : Gamepad) (hotkey : HotkeyEntry),
    fst (selectHotkey g hotkey) = action hotkey /\
    Z.land (buttons (state (snd (selectHotkey g hotkey)))) (buttonsMask hotkey) = 0 /\
    Z.land (dpad (state (snd (selectHotkey g hotkey)))) (dpadMask hotkey) = 0 /\
    (forall i : Z,
       Z.testbit (buttonsMask hotkey) i = true ->
       Z.testbit (buttons (state (snd (selectHotkey g hotkey)))) i = false) /\
    (forall i : Z,
       Z.testbit (dpadMask hotkey) i = true ->
       Z.testbit (dpad (state (snd (selectHotkey g hotkey)))) i = false).
Proof.
  intros g hotkey. unfold selectHotkey, u16, u8. simpl.
  split; [reflexivity |].
  split; [apply cleared_land; lia |].
  split; [apply cleared_land; lia |].
  split; intros i Hi; apply cleared_testbit; (lia || assumption).
Qed.

Lemma selectHotkey_consumes_chord_witness :
  Z.testbit (buttonsMask chord_up_s1_s2) 8 = true /\
  Z.testbit (dpadMask chord_up_s1_s2) 0 = true /\
  fst (selectHotkey sample_gamepad chord_up_s1_s2) = 3 /\
  Z.testbit
    (buttons (state (snd (selectHotkey sample_gamepad chord_up_s1_s2)))) 8
    = false /\
  Z.testbit
    (dpad (state (snd (selectHotkey sample_gamepad chord_up_s1_s2)))) 0
    = false.
Proof.
  pose proof (selectHotkey_consumes_chord sample_gamepad chord_up_s1_s2)
    as (Hact & _ & _ & Hb & Hd).
  split; [reflexivity |].
  split; [reflexivity |].
  split; [exact Hact |].
  split; [exact (Hb 8 eq_refl) | exact (Hd 0 eq_refl)].
Defined.

(** The bits outside the chord survive the consumption. *)
Lemma selectHotkey_keeps_other_bits (g : Gamepad) (hotkey : HotkeyEntry) :
  GamepadState_fits (state g) ->
  buttons (state (snd (selectHotkey g hotkey)))
    = Z.ldiff (buttons (state g)) (buttonsMask hotkey) /\
  dpad (state (snd (selectHotkey g hotkey)))
    = Z.ldiff (dpad (state g)) (dpadMask hotkey).
Proof.
  intros (Hd & Hb & _). unfold selectHotkey, u16, u8. simpl.
  split; apply cleared_ldiff; (lia || assumption).
Qed.

(** Once consumed, a chord with a button or dpad bit is no longer
    pressed. *)
Lemma selectHotkey_releases_buttons (g : Gamepad) (hotkey : HotkeyEntry) :
  in_width 16 (buttonsMask hotkey) ->
  buttonsMask hotkey <> 0 ->
  pressedButton (snd (selectHotkey g hotkey)) (buttonsMask hotkey) = false.
Proof.
  intros Hfit Hnz. unfold pressedButton.
  unfold u16 at 1 2. rewrite (wrap_small _ _ Hfit).
  unfold selectHotkey, u16. simpl. rewrite cleared_land by lia.
  apply Z.eqb_neq. congruence.
Qed.

(** C9. Consuming an entry writes the resolved button and dpad masks only:
    the auxiliary mask, the two as-wired views and every other member of
    the controller keep their value, so an auxiliary chord bit stays
    pressed after the consumption. *)
Theorem selectHotkey_frame :
  forall (g : Gamepad) (hotkey : HotkeyEntry),
    aux (state (snd (selectHotkey g hotkey))) = aux (state g) /\
    bwires (state (snd (selectHotkey g hotkey))) = bwires (state g) /\
    dwires (state (snd (selectHotkey g hotkey))) = dwires (state g) /\
    rawState (snd (selectHotkey g hotkey)) = rawState g /\
    options (snd (selectHotkey g hotkey)) = options g /\
    hotkeyOptions (snd (selectHotkey g hotkey)) = hotkeyOptions g /\
    lastAction (snd (selectHotkey g hotkey)) = lastAction g /\
    debouncer (snd (selectHotkey g hotkey)) = debouncer g /\
    debounceMS (snd (selectHotkey g hotkey)) = debounceMS g /\
    gamepadMappings (snd (selectHotkey g hotkey)) = gamepadMappings g /\
    hasAnalogTriggers (snd (selectHotkey g hotkey)) = hasAnalogTriggers g /\
    hasLeftAnalogStick (snd (selectHotkey g hotkey)) = hasLeftAnalogStick g /\
    hasRightAnalogStick (snd (selectHotkey g hotkey)) = hasRightAnalogStick g /\
    (forall mask : Z,
       pressedAux (snd (selectHotkey g hotkey)) mask = pressedAux g mask) /\
    (forall mask : Z,
       activeWireB (snd (selectHotkey g hotkey)) mask = activeWireB g mask) /\
    (forall mask : Z,
       activeWireD (snd (selectHotkey g hotkey)) mask = activeWireD g mask).
Proof.
  intros g hotkey. repeat split.
Qed.

(** ** Edge-triggered dispatch *)

Lemma chord_held_same_list (g g' : Gamepad) (entry : HotkeyEntry)
    (s : GamepadState) :
  hotkeyOptions g' = hotkeyOptions g ->
  chord_held g entry s -> chord_held g' entry s.
Proof.
  unfold chord_held. intros -> (before & after & Heq & Hb & He).
  exists before, after. repeat split; assumption.
Qed.

Lemma chord_released_same_list (g g' : Gamepad) (s : GamepadState) :
  hotkeyOptions g' = hotkeyOptions g ->
  chord_released g s -> chord_released g' s.
Proof.
  unfold chord_released, no_match. intros -> H. exact H.
Qed.

Lemma chord_held_action (g : Gamepad) (entry : HotkeyEntry) (s : GamepadState) :
  chord_held g entry s -> action entry <> HOTKEY_NONE.
Proof.
  intros (_ & _ & _ & _ & He).
  apply pressedHotkey_converted in He. tauto.
Qed.

Lemma hotkey_held (g : Gamepad) (entry : HotkeyEntry) (s : GamepadState) :
  chord_held g entry s ->
  hotkey (with_state g s)
    = processHotkeyIfNewAction (action entry)
        (snd (selectHotkey (with_state g s) entry)).
Proof.
  intros H. unfold hotkey.
  change (hotkeyOptions (with_state g s)) with (hotkeyOptions g).
  rewrite (scanHotkeys_first_match _ _ _ H). reflexivity.
Qed.

Lemma hotkey_released (g : Gamepad) (s : GamepadState) :
  chord_released g s ->
  hotkey (with_state g s)
    = processHotkeyIfNewAction HOTKEY_NONE (with_state g s).
Proof.
  intros H. unfold hotkey.
  change (hotkeyOptions (with_state g s)) with (hotkeyOptions g).
  rewrite (scanHotkeys_no_match _ _ H). reflexivity.
Qed.

(** What one cycle does to the latch and to the configured list. *)
Lemma processHotkeyIfNewAction_latch (a : GamepadHotkey) (g : Gamepad) :
  lastAction (snd (processHotkeyIfNewAction a g)) = a /\
  hotkeyOptions (snd (processHotkeyIfNewAction a g)) = hotkeyOptions g.
Proof.
  unfold processHotkeyIfNewAction.
  destruct (Z.eqb_spec a (lastAction g)) as [-> | Hne]; split; reflexivity.
Qed.

Lemma processHotkeyIfNewAction_surfaced (a : GamepadHotkey) (g : Gamepad) :
  fst (processHotkeyIfNewAction a g)
    = if a =? lastAction g then None else Some a.
Proof.
  unfold processHotkeyIfNewAction.
  destruct (a =? lastAction g); reflexivity.
Qed.

Lemma pollCycles_cons (s : GamepadState) (rest : list GamepadState)
    (g : Gamepad) :
  pollCycles (s :: rest) g
    = (fst (hotkey (with_state g s))
         :: fst (pollCycles rest (snd (hotkey (with_state g s)))),
       snd (pollCycles rest (snd (hotkey (with_state g s))))).
Proof.
  simpl. destruct (hotkey (with_state g s)) as [out g']. simpl.
  destruct (pollCycles rest g') as [outs g'']. reflexivity.
Qed.

Lemma pollCycles_app (l1 l2 : list GamepadState) (g : Gamepad) :
  pollCycles (l1 ++ l2) g
    = (fst (pollCycles l1 g) ++ fst (pollCycles l2 (snd (pollCycles l1 g))),
       snd (pollCycles l2 (snd (pollCycles l1 g)))).
Proof.
  revert g. induction l1 as [| s l1 IH]; intros g.
  - simpl. destruct (pollCycles l2 g). reflexivity.
  - rewrite <- app_comm_cons, !pollCycles_cons, IH. reflexivity.
Qed.

Lemma pollCycles_hotkeyOptions (l : list GamepadState) (g : Gamepad) :
  hotkeyOptions (snd (pollCycles l g)) = hotkeyOptions g.
Proof.
  revert g. induction l as [| s l IH]; intros g.
  - reflexivity.
  - rewrite pollCycles_cons. simpl. rewrite IH.
    unfold hotkey.
    destruct (scanHotkeys (with_state g s) (hotkeyOptions (with_state g s)))
      as [a g'] eqn:E.
    rewrite (proj2 (processHotkeyIfNewAction_latch a g')).
    assert (Hscan : forall entries g0,
               hotkeyOptions (snd (scanHotkeys g0 entries)) = hotkeyOptions g0).
    { induction entries as [| h entries IHe]; intros g0; simpl.
      - reflexivity.
      - destruct (pressedHotkey g0 h); [reflexivity | apply IHe]. }
    specialize (Hscan (hotkeyOptions (with_state g s)) (with_state g s)).
    rewrite E in Hscan. exact Hscan.
Qed.

(** While the chord stays held and the latch already holds its action,
    nothing is surfaced. *)
Lemma pollCycles_held_latched (entry : HotkeyEntry) (held : list GamepadState) :
  forall g : Gamepad,
    Forall (chord_held g entry) held ->
    lastAction g = action entry ->
    fst (pollCycles held g) = repeat None (length held) /\
    lastAction (snd (pollCycles held g)) = action entry.
Proof.
  induction held as [| s held IH]; intros g Hheld Hlatch.
  - split; [reflexivity | exact Hlatch].
  - inversion Hheld as [| ? ? Hs Hrest]; subst.
    rewrite pollCycles_cons, (hotkey_held g entry s Hs).
    set (g1 := snd (selectHotkey (with_state g s) entry)). cbn [fst snd].
    assert (Hl1 : lastAction g1 = action entry) by exact Hlatch.
    destruct (processHotkeyIfNewAction_latch (action entry) g1) as [Hl Hk].
    rewrite processHotkeyIfNewAction_surfaced, Hl1, Z.eqb_refl.
    destruct (IH (snd (processHotkeyIfNewAction (action entry) g1))) as [Ho Hf].
    + eapply Forall_impl; [| exact Hrest].
      intros s'. apply chord_held_same_list. rewrite Hk. reflexivity.
    + exact Hl.
    + rewrite Ho. split; [reflexivity | exact Hf].
Qed.

(** The cycle on which the chord becomes satisfied surfaces its action;
    the cycles that follow while it is held surface nothing. *)
Lemma pollCycles_held_new (entry : HotkeyEntry) (s : GamepadState)
    (held : list GamepadState) (g : Gamepad) :
  Forall (chord_held g entry) (s :: held) ->
  lastAction g <> action entry ->
  fst (pollCycles (s :: held) g)
    = Some (action entry) :: repeat None (length held) /\
  lastAction (snd (pollCycles (s :: held) g)) = action entry.
Proof.
  intros Hheld Hlatch.
  inversion Hheld as [| ? ? Hs Hrest]; subst.
  rewrite pollCycles_cons, (hotkey_held g entry s Hs).
  set (g1 := snd (selectHotkey (with_state g s) entry)). cbn [fst snd].
  assert (Hl1 : lastAction g1 = lastAction g) by reflexivity.
  destruct (processHotkeyIfNewAction_latch (action entry) g1) as [Hl Hk].
  rewrite processHotkeyIfNewAction_surfaced, Hl1.
  destruct (Z.eqb_spec (action entry) (lastAction g)) as [Heq | _];
    [congruence |].
  destruct (pollCycles_held_latched entry held
              (snd (processHotkeyIfNewAction (action entry) g1))) as [Ho Hf].
  - eapply Forall_impl; [| exact Hrest].
    intros s'. apply chord_held_same_list. rewrite Hk. reflexivity.
  - exact Hl.
  - rewrite Ho. split; [reflexivity | exact Hf].
Qed.

(** Cycles without a satisfied chord dispatch no action and reset the
    latch to "none". *)
Lemma pollCycles_released (a : GamepadHotkey) (rel : list GamepadState) :
  forall g : Gamepad,
    Forall (chord_released g) rel ->
    a <> HOTKEY_NONE ->
    dispatches a (fst (pollCycles rel g)) = O /\
    (rel <> [] -> lastAction (snd (pollCycles rel g)) = HOTKEY_NONE).
Proof.
  induction rel as [| s rel IH]; intros g Hrel Ha.
  - split; [reflexivity | congruence].
  - inversion Hrel as [| ? ? Hs Hrest]; subst.
    rewrite pollCycles_cons, (hotkey_released g s Hs). cbn [fst snd].
    destruct (processHotkeyIfNewAction_latch HOTKEY_NONE (with_state g s))
      as [Hl Hk].
    destruct (IH (snd (processHotkeyIfNewAction HOTKEY_NONE (with_state g s))))
      as [Hd Hf]; [| exact Ha |].
    + eapply Forall_impl; [| exact Hrest].
      intros s'. apply chord_released_same_list. rewrite Hk. reflexivity.
    + split.
      * rewrite processHotkeyIfNewAction_surfaced.
        destruct (HOTKEY_NONE =? lastAction (with_state g s));
          cbn [dispatches].
        -- exact Hd.
        -- destruct (Z.eqb_spec HOTKEY_NONE a) as [Heq | _];
             [congruence | exact Hd].
      * intros _. destruct rel as [| s' rel'].
        -- exact Hl.
        -- apply Hf. discriminate.
Qed.

Lemma dispatches_app (a : GamepadHotkey) (l1 l2 : list (option GamepadHotkey)) :
  dispatches a (l1 ++ l2) = (dispatches a l1 + dispatches a l2)%nat.
Proof.
  induction l1 as [| [b |] l1 IH]; simpl.
  - reflexivity.
  - destruct (b =? a); simpl; now rewrite IH.
  - exact IH.
Qed.

Lemma dispatches_none (a : GamepadHotkey) (n : nat) :
  dispatches a (repeat None n) = O.
Proof. induction n; simpl; auto. Qed.

Lemma dispatches_once (a : GamepadHotkey) (n : nat) :
  dispatches a (Some a :: repeat None n) = 1%nat.
Proof. cbn [dispatches]. now rewrite Z.eqb_refl, dispatches_none. Qed.

(** C5. A chord that becomes the first satisfied one while the latch holds
    another action, and stays so for a run of cycles, is dispatched on the
    first cycle of the run and on no later one: the run surfaces its action
    once.  After a release (a run of cycles without any satisfied chord) a
    new press is dispatched again: two dispatches in all.  An action is
    surfaced exactly when it differs from the latch, and the latch holds it
    afterwards. *)
Theorem hotkey_dispatched_once_per_press :
  forall (g : Gamepad) (entry : HotkeyEntry) (s : GamepadState)
         (held : list GamepadState),
    Forall (chord_held g entry) (s :: held) ->
    lastAction g <> action entry ->
    fst (pollCycles (s :: held) g)
      = Some (action entry) :: repeat None (length held) /\
    dispatches (action entry) (fst (pollCycles (s :: held) g)) = 1%nat /\
    lastAction (snd (pollCycles (s :: held) g)) = action entry /\
    (forall (r : GamepadState) (rel : list GamepadState)
            (s' : GamepadState) (held' : list GamepadState),
       Forall (chord_released g) (r :: rel) ->
       Forall (chord_held g entry) (s' :: held') ->
       dispatches (action entry)
         (fst (pollCycles ((s :: held) ++ (r :: rel) ++ (s' :: held')) g))
         = 2%nat) /\
    (forall (a : GamepadHotkey) (g0 : Gamepad),
       (fst (processHotkeyIfNewAction a g0) = Some a <-> a <> lastAction g0) /\
       (fst (processHotkeyIfNewAction a g0) = None <-> a = lastAction g0) /\
       lastAction (snd (processHotkeyIfNewAction a g0)) = a).
Proof.
  intros g entry s held Hheld Hlatch.
  destruct (pollCycles_held_new entry s held g Hheld Hlatch) as [Hout Hfin].
  split; [exact Hout |].
  split; [rewrite Hout; apply dispatches_once |].
  split; [exact Hfin |].
  split.
  - intros r rel s' held' Hrel Hheld'.
    assert (Ha : action entry <> HOTKEY_NONE).
    { inversion Hheld; subst. eapply chord_held_action; eassumption. }
    rewrite pollCycles_app. cbn [fst].
    rewrite dispatches_app, Hout, dispatches_once.
    set (g1 := snd (pollCycles (s :: held) g)).
    assert (Hk1 : hotkeyOptions g1 = hotkeyOptions g)
      by apply pollCycles_hotkeyOptions.
    rewrite pollCycles_app. cbn [fst].
    rewrite dispatches_app.
    destruct (pollCycles_released (action entry) (r :: rel) g1) as [Hd Hnone].
    + eapply Forall_impl; [| exact Hrel].
      intros x. now apply chord_released_same_list.
    + exact Ha.
    + rewrite Hd.
      set (g2 := snd (pollCycles (r :: rel) g1)).
      assert (Hk2 : hotkeyOptions g2 = hotkeyOptions g).
      { unfold g2. now rewrite pollCycles_hotkeyOptions. }
      destruct (pollCycles_held_new entry s' held' g2) as [Hout' _].
      * eapply Forall_impl; [| exact Hheld'].
        intros x. now apply chord_held_same_list.
      * unfold g2. rewrite Hnone by discriminate. congruence.
      * rewrite Hout', dispatches_once. reflexivity.
  - intros a g0.
    pose proof (processHotkeyIfNewAction_surfaced a g0) as Hs.
    destruct (processHotkeyIfNewAction_latch a g0) as [Hl _].
    destruct (Z.eqb_spec a (lastAction g0)) as [Heq | Hne]; rewrite Hs;
      repeat split; congruence.
Qed.

Lemma hotkey_dispatched_once_per_press_witness :
  Forall (chord_held sample_gamepad chord_up_s1_s2)
    [chord_state; chord_state; chord_state] /\
  lastAction sample_gamepad <> action chord_up_s1_s2 /\
  fst (pollCycles [chord_state; chord_state; chord_state] sample_gamepad)
    = [Some 3; None; None] /\
  dispatches 3
    (fst (pollCycles [chord_state; chord_state; chord_state] sample_gamepad))
    = 1%nat /\
  Forall (chord_released sample_gamepad) [idle_state] /\
  dispatches 3
    (fst (pollCycles
            ([chord_state; chord_state; chord_state] ++ [idle_state]
               ++ [chord_state; chord_state])
            sample_gamepad))
    = 2%nat.
Proof.
  assert (Hheld : chord_held sample_gamepad chord_up_s1_s2 chord_state).
  { exists [unused_slot], [chord_s1].
    split; [reflexivity | split; [| reflexivity]].
    constructor; [reflexivity | constructor]. }
  assert (Hrun : Forall (chord_held sample_gamepad chord_up_s1_s2)
                   [chord_state; chord_state; chord_state])
    by (repeat constructor; exact Hheld).
  assert (Hrun' : Forall (chord_held sample_gamepad chord_up_s1_s2)
                    [chord_state; chord_state])
    by (repeat constructor; exact Hheld).
  assert (Hrel : Forall (chord_released sample_gamepad) [idle_state])
    by (repeat constructor).
  assert (Hlatch : lastAction sample_gamepad <> action chord_up_s1_s2)
    by (simpl; discriminate).
  pose proof (hotkey_dispatched_once_per_press sample_gamepad chord_up_s1_s2
                chord_state [chord_state; chord_state] Hrun Hlatch)
    as (Hout & Hone & _ & Hagain & _).
  split; [exact Hrun |].
  split; [exact Hlatch |].
  split; [exact Hout |].
  split; [exact Hone |].
  split; [exact Hrel |].
  exact (Hagain idle_state [] chord_state [chord_state] Hrel Hrun').
Defined.

(** The run of the sample controller, cycle by cycle: press, hold, release,
    press again. *)
Example pollCycles_sample :
  fst (pollCycles [chord_state; chord_state; idle_state; chord_state]
         sample_gamepad)
    = [Some 3; None; Some HOTKEY_NONE; Some 3].
Proof. reflexivity. Qed.

(** A chord that stays satisfied is not always dispatched once.  With the
    chord of buttons 0 and 1 listed ahead of the chord of button 0, holding
    button 0 and pressing button 1 for one cycle in between keeps the
    second chord satisfied on all three cycles, yet its action 3 is
    dispatched on the first and again on the third: the entry listed first
    takes the middle cycle and moves the latch.  With two chords bound to
    action 3, the chord of button 1 is not satisfied on the first cycle and
    becomes satisfied on the second, where nothing is dispatched: the latch
    already holds its action. *)
Lemma hotkey_satisfied_chord_redispatched :
  satisfied_throughout overlap_gamepad chord_b1 [b1_held; b1_b2_held; b1_held]
    = true /\
  lastAction overlap_gamepad = HOTKEY_NONE /\
  fst (pollCycles [b1_held; b1_b2_held; b1_held] overlap_gamepad)
    = [Some 3; Some 7; Some 3] /\
  dispatches (action chord_b1)
    (fst (pollCycles [b1_held; b1_b2_held; b1_held] overlap_gamepad))
    = 2%nat /\
  pressedHotkey (with_state shared_action_gamepad b1_held) chord_b2_same_action
    = false /\
  satisfied_throughout shared_action_gamepad chord_b2_same_action
    [b2_held; b2_held] = true /\
  fst (pollCycles [b1_held; b2_held; b2_held] shared_action_gamepad)
    = [Some 3; None; None].
Proof. repeat split. Qed.

(** ** SOCD resolver *)

Lemma four_bit_masks (m : Z) :
  in_width 4 m ->
  In m [0; 1; 2; 3; 4; 5; 6; 7; 8; 9; 10; 11; 12; 13; 14; 15].
Proof.
  unfold in_width. change (2 ^ 4) with 16. intros H. simpl.
  assert (m = 0 \/ m = 1 \/ m = 2 \/ m = 3 \/ m = 4 \/ m = 5 \/ m = 6 \/
          m = 7 \/ m = 8 \/ m = 9 \/ m = 10 \/ m = 11 \/ m = 12 \/ m = 13 \/
          m = 14 \/ m = 15) as Hm by lia.
  intuition auto.
Qed.

(** Under Neutral and Up-priority the press order is not consulted. *)
Lemma resolve_order_irrelevant (m : Z) (policy : SOCDMode) (o1 o2 : PressOrder) :
  policy <> SOCD_MODE_SECOND_INPUT_PRIORITY ->
  resolve m policy o1 = resolve m policy o2.
Proof.
  intros Hp. unfold resolve, resolvePair.
  destruct policy; try reflexivity. contradiction.
Qed.

(** Bypass passes every mask through. *)
Lemma resolve_bypass (m : Z) (order : PressOrder) :
  resolve m SOCD_MODE_BYPASS order = m.
Proof. reflexivity. Qed.

(** Under Neutral each axis is cancelled on a conflict and kept
    otherwise. *)
Lemma resolve_neutral_axes (m : Z) (order : PressOrder) :
  in_width 4 m ->
  vertical (resolve m SOCD_MODE_NEUTRAL order)
    = (if has m (Z.lor GAMEPAD_MASK_UP GAMEPAD_MASK_DOWN) then 0
       else vertical m) /\
  horizontal (resolve m SOCD_MODE_NEUTRAL order)
    = (if has m (Z.lor GAMEPAD_MASK_LEFT GAMEPAD_MASK_RIGHT) then 0
       else horizontal m).
Proof.
  intros H. apply four_bit_masks in H.
  rewrite (resolve_order_irrelevant m _ order (mkPressOrder 0 0 0 0))
    by discriminate.
  each_mask H.
Qed.

(** Under Up-priority a vertical conflict leaves Up, a horizontal one is
    cancelled, and an axis without a conflict is kept. *)
Lemma resolve_up_priority_axes (m : Z) (order : PressOrder) :
  in_width 4 m ->
  vertical (resolve m SOCD_MODE_UP_PRIORITY order)
    = (if has m (Z.lor GAMEPAD_MASK_UP GAMEPAD_MASK_DOWN) then GAMEPAD_MASK_UP
       else vertical m) /\
  horizontal (resolve m SOCD_MODE_UP_PRIORITY order)
    = (if has m (Z.lor GAMEPAD_MASK_LEFT GAMEPAD_MASK_RIGHT) then 0
       else horizontal m).
Proof.
  intros H. apply four_bit_masks in H.
  rewrite (resolve_order_irrelevant m _ order (mkPressOrder 0 0 0 0))
    by discriminate.
  each_mask H.
Qed.

(** C7. For every 4-bit dpad mask.  Under Neutral: a mask with Up and Down
    resolves to one with neither, a mask with Left and Right resolves to
    one with neither, and a mask without an opposing pair is returned
    unchanged; in particular Up|Down and Left|Right resolve to 0.  Under
    Up-priority: a vertical conflict leaves Up as the only vertical
    direction and a horizontal conflict leaves no horizontal direction. *)
Theorem resolve_opposing_pairs :
  forall (m : Z) (order : PressOrder),
    in_width 4 m ->
    (has m (Z.lor GAMEPAD_MASK_UP GAMEPAD_MASK_DOWN) = true ->
     has (resolve m SOCD_MODE_NEUTRAL order) GAMEPAD_MASK_UP = false /\
     has (resolve m SOCD_MODE_NEUTRAL order) GAMEPAD_MASK_DOWN = false) /\
    (has m (Z.lor GAMEPAD_MASK_LEFT GAMEPAD_MASK_RIGHT) = true ->
     has (resolve m SOCD_MODE_NEUTRAL order) GAMEPAD_MASK_LEFT = false /\
     has (resolve m SOCD_MODE_NEUTRAL order) GAMEPAD_MASK_RIGHT = false) /\
    (has m (Z.lor GAMEPAD_MASK_UP GAMEPAD_MASK_DOWN) = false ->
     has m (Z.lor GAMEPAD_MASK_LEFT GAMEPAD_MASK_RIGHT) = false ->
     resolve m SOCD_MODE_NEUTRAL order = m) /\
    resolve (Z.lor GAMEPAD_MASK_UP GAMEPAD_MASK_DOWN) SOCD_MODE_NEUTRAL order = 0 /\
    resolve (Z.lor GAMEPAD_MASK_LEFT GAMEPAD_MASK_RIGHT) SOCD_MODE_NEUTRAL order = 0 /\
    (has m (Z.lor GAMEPAD_MASK_UP GAMEPAD_MASK_DOWN) = true ->
     has (resolve m SOCD_MODE_UP_PRIORITY order) GAMEPAD_MASK_UP = true /\
     has (resolve m SOCD_MODE_UP_PRIORITY order) GAMEPAD_MASK_DOWN = false) /\
    (has m (Z.lor GAMEPAD_MASK_LEFT GAMEPAD_MASK_RIGHT) = true ->
     has (resolve m SOCD_MODE_UP_PRIORITY order) GAMEPAD_MASK_LEFT = false /\
     has (resolve m SOCD_MODE_UP_PRIORITY order) GAMEPAD_MASK_RIGHT = false).
Proof.
  intros m order H. apply four_bit_masks in H.
  rewrite !(resolve_order_irrelevant _ SOCD_MODE_NEUTRAL order
              (mkPressOrder 0 0 0 0)) by discriminate.
  rewrite !(resolve_order_irrelevant _ SOCD_MODE_UP_PRIORITY order
              (mkPressOrder 0 0 0 0)) by discriminate.
  each_mask H.
Qed.

Lemma resolve_opposing_pairs_witness :
  in_width 4 15 /\
  has 15 (Z.lor GAMEPAD_MASK_UP GAMEPAD_MASK_DOWN) = true /\
  has 15 (Z.lor GAMEPAD_MASK_LEFT GAMEPAD_MASK_RIGHT) = true /\
  has (resolve 15 SOCD_MODE_NEUTRAL (mkPressOrder 1 2 3 4)) GAMEPAD_MASK_UP = false /\
  has (resolve 15 SOCD_MODE_NEUTRAL (mkPressOrder 1 2 3 4)) GAMEPAD_MASK_LEFT = false /\
  has (resolve 15 SOCD_MODE_UP_PRIORITY (mkPressOrder 1 2 3 4)) GAMEPAD_MASK_UP = true /\
  has (resolve 15 SOCD_MODE_UP_PRIORITY (mkPressOrder 1 2 3 4)) GAMEPAD_MASK_DOWN = false /\
  has (resolve 15 SOCD_MODE_UP_PRIORITY (mkPressOrder 1 2 3 4)) GAMEPAD_MASK_RIGHT = false /\
  in_width 4 5 /\
  has 5 (Z.lor GAMEPAD_MASK_UP GAMEPAD_MASK_DOWN) = false /\
  has 5 (Z.lor GAMEPAD_MASK_LEFT GAMEPAD_MASK_RIGHT) = false /\
  resolve 5 SOCD_MODE_NEUTRAL (mkPressOrder 1 2 3 4) = 5.
Proof.
  assert (H15 : in_width 4 15) by (unfold in_width; simpl; lia).
  assert (H5 : in_width 4 5) by (unfold in_width; simpl; lia).
  pose proof (resolve_opposing_pairs 15 (mkPressOrder 1 2 3 4) H15)
    as (Hv & Hh & _ & _ & _ & Huv & Huh).
  pose proof (resolve_opposing_pairs 5 (mkPressOrder 1 2 3 4) H5)
    as (_ & _ & Hsame & _).
  split; [exact H15 |].
  split; [reflexivity |].
  split; [reflexivity |].
  split; [exact (proj1 (Hv eq_refl)) |].
  split; [exact (proj1 (Hh eq_refl)) |].
  split; [exact (proj1 (Huv eq_refl)) |].
  split; [exact (proj2 (Huv eq_refl)) |].
  split; [exact (proj2 (Huh eq_refl)) |].
  split; [exact H5 |].
  split; [reflexivity |].
  split; [reflexivity |].
  exact (Hsame eq_refl eq_refl).
Defined.

(** The resolver on sample masks: Up|Down|Left is Left under Neutral and
    Up|Left under Up-priority; under Second-input priority the more recent
    press wins and a tie cancels. *)
Example resolve_samples :
  resolve 7 SOCD_MODE_NEUTRAL (mkPressOrder 0 0 0 0) = 4 /\
  resolve 7 SOCD_MODE_UP_PRIORITY (mkPressOrder 0 0 0 0) = 5 /\
  resolve 3 SOCD_MODE_SECOND_INPUT_PRIORITY (mkPressOrder 1 2 0 0) = 2 /\
  resolve 3 SOCD_MODE_SECOND_INPUT_PRIORITY (mkPressOrder 2 1 0 0) = 1 /\
  resolve 3 SOCD_MODE_SECOND_INPUT_PRIORITY (mkPressOrder 2 2 0 0) = 0 /\
  resolve 3 SOCD_MODE_BYPASS (mkPressOrder 0 0 0 0) = 3.
Proof. repeat split. Qed.

(** ** Debouncer *)

Lemma debounceRun_app (d : Z) (l1 l2 : list (Z * bool)) (s : DebouncedInput) :
  debounceRun d (l1 ++ l2) s = debounceRun d l2 (debounceRun d l1 s).
Proof.
  revert s. induction l1 as [| [t l] l1 IH]; intros s; simpl.
  - reflexivity.
  - apply IH.
Qed.

Lemma debounceTrace_app (d : Z) (l1 l2 : list (Z * bool)) (s : DebouncedInput) :
  debounceTrace d (l1 ++ l2) s
    = debounceTrace d l1 s ++ debounceTrace d l2 (debounceRun d l1 s).
Proof.
  revert s. induction l1 as [| [t l] l1 IH]; intros s; simpl.
  - reflexivity.
  - now rewrite IH.
Qed.

(** The inputs of one controller are filtered independently. *)
Lemma debounceAll_nth (d now : Z) (levels : list bool) (deb : GamepadDebouncer)
    (i : nat) (level : bool) (s : DebouncedInput) :
  nth_error levels i = Some level ->
  nth_error deb i = Some s ->
  nth_error (debounceAll d now levels deb) i
    = Some (debounceInput d now level s).
Proof.
  revert deb i. induction levels as [| l levels IH]; intros deb i Hl Hs.
  - destruct i; discriminate.
  - destruct deb as [| s0 deb]; [destruct i; discriminate |].
    destruct i as [| i]; simpl in *.
    + congruence.
    + now apply IH.
Qed.

(** One sample either keeps the accepted level or accepts the sampled one,
    the latter only at the end of an observation of at least the
    interval. *)
Lemma debounceInput_cases (d now : Z) (level : bool) (s : DebouncedInput) :
  accepted (debounceInput d now level s) = accepted s \/
  (level = negb (accepted s) /\
   accepted (debounceInput d now level s) = level /\
   d <= now - match pendingSince s with Some t => t | None => now end).
Proof.
  unfold debounceInput.
  destruct (Bool.eqb level (accepted s)) eqn:E; [left; reflexivity |].
  destruct (Z.leb_spec d
              (now - match pendingSince s with Some t => t | None => now end))
    as [Hle | Hlt]; [right | left; reflexivity].
  apply eqb_false_iff in E. simpl.
  repeat split; [| exact Hle].
  destruct level, (accepted s); simpl; congruence.
Qed.

Lemma observing_step (d now : Z) (level : bool) (hist : list (Z * bool))
    (s : DebouncedInput) :
  observing hist s ->
  observing (hist ++ [(now, level)]) (debounceInput d now level s).
Proof.
  unfold observing, debounceInput. intros Hobs.
  destruct (Bool.eqb level (accepted s)) eqn:E; [exact I |].
  assert (Hl : level = negb (accepted s)).
  { apply eqb_false_iff in E. destruct level, (accepted s); simpl; congruence. }
  destruct (pendingSince s) as [t0 |].
  - destruct (d <=? now - t0); [exact I |]. simpl.
    destruct Hobs as (before & run & -> & Hrun).
    exists before, (run ++ [(now, level)]). split.
    + now rewrite <- app_assoc.
    + apply Forall_app. split; [exact Hrun | repeat constructor; exact Hl].
  - destruct (d <=? now - now); [exact I |]. simpl.
    exists hist, []. split; [now rewrite Hl | constructor].
Qed.

Lemma observing_run (d : Z) (hist : list (Z * bool)) (s0 : DebouncedInput) :
  pendingSince s0 = None ->
  observing hist (debounceRun d hist s0).
Proof.
  intros H0. induction hist as [| [t l] hist IH] using rev_ind.
  - unfold observing. simpl. now rewrite H0.
  - rewrite debounceRun_app. simpl. now apply observing_step.
Qed.

(** A reported transition ends an observation of the new level that lasted
    at least the interval. *)
Lemma transition_after_interval (d now : Z) (level : bool)
    (hist : list (Z * bool)) (s0 : DebouncedInput) :
  pendingSince s0 = None ->
  accepted (debounceInput d now level (debounceRun d hist s0))
    <> accepted (debounceRun d hist s0) ->
  accepted (debounceInput d now level (debounceRun d hist s0)) = level /\
  exists before t0 run,
    hist ++ [(now, level)] = before ++ (t0, level) :: run /\
    Forall (fun x => snd x = level) run /\
    d <= now - t0.
Proof.
  intros H0 Hchange.
  pose proof (observing_run d hist s0 H0) as Hobs.
  set (s := debounceRun d hist s0) in *.
  destruct (debounceInput_cases d now level s) as [Hsame | (Hl & Hacc & Hd)];
    [contradiction |].
  split; [exact Hacc |].
  unfold observing in Hobs.
  destruct (pendingSince s) as [t0 |].
  - destruct Hobs as (before & run & Hhist & Hrun).
    exists before, t0, (run ++ [(now, level)]).
    rewrite Hhist, <- Hl, <- app_assoc. repeat split.
    + apply Forall_app. rewrite Hl.
      split; [exact Hrun | repeat constructor].
    + exact Hd.
  - exists hist, now, []. repeat split; [constructor | exact Hd].
Qed.

(** While the timer runs and the interval has not elapsed, samples at the
    new level change nothing. *)
Lemma pending_burst (d t0 : Z) (L0 : bool) (burst : list (Z * bool)) :
  Forall (fun x => snd x = negb L0 /\ fst x - t0 < d) burst ->
  debounceRun d burst (mkDebouncedInput L0 (Some t0))
    = mkDebouncedInput L0 (Some t0) /\
  debounceTrace d burst (mkDebouncedInput L0 (Some t0))
    = repeat L0 (length burst).
Proof.
  induction 1 as [| [t l] burst [Hl Ht] _ [IHr IHt]]; simpl in *.
  - split; reflexivity.
  - subst l. unfold debounceInput. simpl.
    replace (Bool.eqb (negb L0) L0) with false by (destruct L0; reflexivity).
    destruct (Z.leb_spec d (t - t0)) as [Hle | _]; [lia |].
    rewrite IHr, IHt. split; reflexivity.
Qed.

(** Samples at the accepted level are reported as they are and stop the
    timer. *)
Lemma steady_run (d : Z) (L : bool) (run : list (Z * bool)) :
  Forall (fun x => snd x = L) run ->
  forall s : DebouncedInput,
    accepted s = L ->
    debounceTrace d run s = repeat L (length run) /\
    accepted (debounceRun d run s) = L /\
    (run <> [] -> debounceRun d run s = restingAt L).
Proof.
  induction 1 as [| [t l] run Hl _ IH]; intros s Hs; simpl in *.
  - repeat split; [exact Hs | congruence].
  - subst l.
    assert (Hstep : debounceInput d t L s = restingAt L).
    { unfold debounceInput, restingAt. rewrite Hs, eqb_reflx. reflexivity. }
    rewrite Hstep. destruct (IH (restingAt L) eq_refl) as (Ht & Ha & Hr).
    rewrite Ht. repeat split; [exact Ha |].
    intros _. destruct run as [| x run']; [reflexivity |].
    apply Hr. discriminate.
Qed.

Lemma transitions_repeat (L : bool) (n : nat) (rest : list bool) :
  transitions L (repeat L n ++ rest) = transitions L rest.
Proof.
  induction n as [| n IH]; simpl.
  - reflexivity.
  - now rewrite eqb_reflx.
Qed.

Lemma transitions_steady (L : bool) (n : nat) : transitions L (repeat L n) = O.
Proof.
  rewrite <- (app_nil_r (repeat L n)). apply transitions_repeat.
Qed.

(** A level that goes back to the accepted one before the interval has
    elapsed leaves no trace in the stabilized output. *)
Lemma glitch_filtered (d t0 : Z) (L0 : bool) (rest back : list (Z * bool)) :
  Forall (fun x => snd x = negb L0 /\ fst x - t0 < d) ((t0, negb L0) :: rest) ->
  Forall (fun x => snd x = L0) back ->
  debounceTrace d (((t0, negb L0) :: rest) ++ back) (restingAt L0)
    = repeat L0 (length (((t0, negb L0) :: rest) ++ back)) /\
  accepted (debounceRun d (((t0, negb L0) :: rest) ++ back) (restingAt L0)) = L0.
Proof.
  intros Hburst Hback.
  inversion Hburst as [| ? ? [_ H0] Hrest]; subst. simpl in H0.
  assert (Hfirst : debounceInput d t0 (negb L0) (restingAt L0)
                   = mkDebouncedInput L0 (Some t0)).
  { unfold debounceInput, restingAt. simpl.
    replace (Bool.eqb (negb L0) L0) with false by (destruct L0; reflexivity).
    destruct (Z.leb_spec d (t0 - t0)) as [Hle | _]; [lia | reflexivity]. }
  destruct (pending_burst d t0 L0 rest Hrest) as [Hr Ht].
  destruct (steady_run d L0 back Hback (mkDebouncedInput L0 (Some t0)) eq_refl)
    as (Hbt & Hba & _).
  rewrite <- app_comm_cons. cbn [debounceTrace debounceRun length].
  rewrite Hfirst. cbn [accepted].
  rewrite debounceTrace_app, debounceRun_app, Hr, Ht, Hbt, Hba.
  rewrite length_app. cbn [repeat]. rewrite repeat_app. split; reflexivity.
Qed.

(** A level held for the interval is accepted at the first sample that
    completes it, and at no other. *)
Lemma stable_level_accepted (d now : Z) (L0 : bool) (early late : list (Z * bool)) :
  Forall (fun x => snd x = negb L0 /\ fst x - observedSince early now < d) early ->
  d <= now - observedSince early now ->
  Forall (fun x => snd x = negb L0) late ->
  debounceTrace d (early ++ (now, negb L0) :: late) (restingAt L0)
    = repeat L0 (length early) ++ repeat (negb L0) (S (length late)).
Proof.
  intros Hearly Hd Hlate.
  assert (Haccept : forall s,
             accepted s = L0 ->
             match pendingSince s with Some t => t | None => now end
               = observedSince early now ->
             debounceTrace d ((now, negb L0) :: late) s
               = repeat (negb L0) (S (length late))).
  { intros s Hs Hsince. cbn [debounceTrace].
    assert (Hstep : debounceInput d now (negb L0) s = restingAt (negb L0)).
    { unfold debounceInput. rewrite Hs, Hsince.
      replace (Bool.eqb (negb L0) L0) with false by (destruct L0; reflexivity).
      destruct (Z.leb_spec d (now - observedSince early now)) as [_ | Hlt];
        [reflexivity | lia]. }
    rewrite Hstep.
    destruct (steady_run d (negb L0) late Hlate (restingAt (negb L0)) eq_refl)
      as (Ht & _).
    rewrite Ht. reflexivity. }
  destruct early as [| [t0 l0] early'].
  - simpl app. simpl length. simpl repeat at 1. simpl app.
    apply Haccept; reflexivity.
  - inversion Hearly as [| ? ? [Hl0 H0] Hrest]; subst.
    simpl in Hl0, H0, Hrest, Hd. subst l0.
    assert (Hfirst : debounceInput d t0 (negb L0) (restingAt L0)
                     = mkDebouncedInput L0 (Some t0)).
    { unfold debounceInput, restingAt. simpl.
      replace (Bool.eqb (negb L0) L0) with false by (destruct L0; reflexivity).
      destruct (Z.leb_spec d (t0 - t0)) as [Hle | _]; [lia | reflexivity]. }
    destruct (pending_burst d t0 L0 early' Hrest) as [Hr Ht].
    rewrite <- app_comm_cons. cbn [debounceTrace length].
    rewrite Hfirst. cbn [accepted].
    rewrite debounceTrace_app, Hr, Ht.
    rewrite (Haccept (mkDebouncedInput L0 (Some t0)) eq_refl eq_refl).
    reflexivity.
Qed.

Lemma debounceInput_before_interval (d now : Z) (level : bool)
    (s : DebouncedInput) :
  now - match pendingSince s with Some t => t | None => now end < d ->
  accepted (debounceInput d now level s) = accepted s.
Proof.
  intros Hlt.
  destruct (debounceInput_cases d now level s) as [H | (_ & _ & Hd)];
    [exact H | lia].
Qed.

(** C6. For one input, an interval [d] and any timestamped samples, from a
    resting input.  A sample changes the reported level only to the sampled
    level, and only when it ends a run of samples at that level whose first
    one lies at least [d] before it; a sample taken less than [d] after the
    observation began reports the level accepted before.  A level that
    returns to the accepted one before [d] has elapsed produces no
    transition.  A level held for at least [d] is reported from the first
    sample that completes the interval on: one transition in all.  The
    default interval is 5 ms. *)
Theorem debounce_accepts_stable_levels_only :
  forall (d : Z) (L0 : bool),
    (forall (hist : list (Z * bool)) (now : Z) (level : bool),
       accepted (debounceInput d now level (debounceRun d hist (restingAt L0)))
         <> accepted (debounceRun d hist (restingAt L0)) ->
       accepted (debounceInput d now level (debounceRun d hist (restingAt L0)))
         = level /\
       exists before t0 run,
         hist ++ [(now, level)] = before ++ (t0, level) :: run /\
         Forall (fun x => snd x = level) run /\
         d <= now - t0) /\
    (forall (s : DebouncedInput) (now : Z) (level : bool),
       now - match pendingSince s with Some t => t | None => now end < d ->
       accepted (debounceInput d now level s) = accepted s) /\
    (forall (t0 : Z) (rest back : list (Z * bool)),
       Forall (fun x => snd x = negb L0 /\ fst x - t0 < d)
         ((t0, negb L0) :: rest) ->
       Forall (fun x => snd x = L0) back ->
       debounceTrace d (((t0, negb L0) :: rest) ++ back) (restingAt L0)
         = repeat L0 (length (((t0, negb L0) :: rest) ++ back)) /\
       transitions L0
         (debounceTrace d (((t0, negb L0) :: rest) ++ back) (restingAt L0))
         = O) /\
    (forall (now : Z) (early late : list (Z * bool)),
       Forall (fun x => snd x = negb L0 /\ fst x - observedSince early now < d)
         early ->
       d <= now - observedSince early now ->
       Forall (fun x => snd x = negb L0) late ->
       debounceTrace d (early ++ (now, negb L0) :: late) (restingAt L0)
         = repeat L0 (length early) ++ repeat (negb L0) (S (length late)) /\
       transitions L0
         (debounceTrace d (early ++ (now, negb L0) :: late) (restingAt L0))
         = 1%nat) /\
    DEFAULT_DEBOUNCE_MS = 5.
Proof.
  intros d L0. split; [| split; [| split; [| split]]].
  - intros hist now level. now apply transition_after_interval.
  - intros s now level. apply debounceInput_before_interval.
  - intros t0 rest back Hburst Hback.
    destruct (glitch_filtered d t0 L0 rest back Hburst Hback) as [Ht _].
    rewrite Ht. split; [reflexivity | apply transitions_steady].
  - intros now early late Hearly Hd Hlate.
    rewrite (stable_level_accepted d now L0 early late Hearly Hd Hlate).
    split; [reflexivity |].
    rewrite transitions_repeat. cbn [repeat transitions].
    replace (Bool.eqb (negb L0) L0) with false by (destruct L0; reflexivity).
    now rewrite transitions_steady.
  - reflexivity.
Qed.

Lemma debounce_accepts_stable_levels_only_witness :
  (accepted (debounceInput 5 5 true
               (debounceRun 5 [(0, true); (3, true)] (restingAt false)))
     <> accepted (debounceRun 5 [(0, true); (3, true)] (restingAt false)) /\
   accepted (debounceInput 5 5 true
               (debounceRun 5 [(0, true); (3, true)] (restingAt false)))
     = true) /\
  (3 - 0 < 5 /\
   accepted (debounceInput 5 3 true (mkDebouncedInput false (Some 0))) = false) /\
  (Forall (fun x => snd x = negb false /\ fst x - 10 < 5)
     [(10, negb false); (11, true)] /\
   Forall (fun x => snd x = false) [(12, false); (13, false)] /\
   transitions false
     (debounceTrace 5 ([(10, negb false); (11, true)] ++ [(12, false); (13, false)])
        (restingAt false))
     = O) /\
  (Forall (fun x => snd x = negb false /\
                    fst x - observedSince [(0, true); (2, true)] 5 < 5)
     [(0, true); (2, true)] /\
   5 <= 5 - observedSince [(0, true); (2, true)] 5 /\
   Forall (fun x => snd x = negb false) [(6, true)] /\
   transitions false
     (debounceTrace 5 ([(0, true); (2, true)] ++ (5, negb false) :: [(6, true)])
        (restingAt false))
     = 1%nat).
Proof.
  pose proof (debounce_accepts_stable_levels_only 5 false)
    as (Hsound & Hbefore & Hglitch & Hstable & _).
  assert (Hchange :
            accepted (debounceInput 5 5 true
                        (debounceRun 5 [(0, true); (3, true)] (restingAt false)))
              <> accepted (debounceRun 5 [(0, true); (3, true)] (restingAt false)))
    by (simpl; discriminate).
  assert (Hlt : 3 - 0 < 5) by lia.
  assert (Hburst : Forall (fun x => snd x = negb false /\ fst x - 10 < 5)
                     [(10, negb false); (11, true)])
    by (repeat constructor).
  assert (Hback : Forall (fun x => snd x = false) [(12, false); (13, false)])
    by (repeat constructor).
  assert (Hearly : Forall (fun x => snd x = negb false /\
                             fst x - observedSince [(0, true); (2, true)] 5 < 5)
                     [(0, true); (2, true)])
    by (repeat constructor).
  assert (Hd : 5 <= 5 - observedSince [(0, true); (2, true)] 5)
    by (simpl; lia).
  assert (Hlate : Forall (fun x => snd x = negb false) [(6, true)])
    by (repeat constructor).
  split; [split; [exact Hchange |] |].
  { exact (proj1 (Hsound [(0, true); (3, true)] 5 true Hchange)). }
  split; [split; [exact Hlt |] |].
  { exact (Hbefore (mkDebouncedInput false (Some 0)) 3 true Hlt). }
  split; [split; [exact Hburst | split; [exact Hback |]] |].
  { exact (proj2 (Hglitch 10 [(11, true)] [(12, false); (13, false)]
                    Hburst Hback)). }
  split; [exact Hearly | split; [exact Hd | split; [exact Hlate |]]].
  exact (proj2 (Hstable 5 [(0, true); (2, true)] [(6, true)] Hearly Hd Hlate)).
Defined.

(** With the default interval: a level that toggles at 10 ms and back at
    12 ms is never reported; a level held from 10 ms on is reported from
    15 ms on. *)
Example debounce_default_samples :
  debounceTrace DEFAULT_DEBOUNCE_MS
    [(9, false); (10, true); (11, true); (12, false); (13, false)]
    (restingAt false)
    = [false; false; false; false; false] /\
  debounceTrace DEFAULT_DEBOUNCE_MS
    [(9, false); (10, true); (12, true); (14, true); (15, true); (16, true)]
    (restingAt false)
    = [false; false; false; false; true; true].
Proof. split; reflexivity. Qed.

(** * Further properties of the header *)

(** ** Pin mapping: composition and the meaning of the mask *)

Lemma small_pin_is_uint8 (n p : Z) : n <= 32 -> 0 <= p < n -> in_width 8 p.
Proof. unfold in_width. change (2 ^ 8) with 256. lia. Qed.

Lemma new_pinMask (n p bm : Z) :
  n <= 32 -> 0 <= p < n ->
  pinMask (GamepadButtonMapping_new n p bm) = Z.shiftl 1 p.
Proof.
  intros Hn Hp.
  destruct (new_in_range n Hn p (small_pin_is_uint8 n p Hn Hp) bm)
    as (_ & Hmask & _); [lia | exact Hmask].
Qed.

Lemma setPin_pinMask (n p : Z) (m : GamepadButtonMapping) :
  n <= 32 -> 0 <= p < n -> pinMask (setPin n p m) = Z.shiftl 1 p.
Proof.
  intros Hn Hp.
  destruct (setPin_in_range n Hn p (small_pin_is_uint8 n p Hn Hp) m)
    as (_ & Hmask & _); [lia | exact Hmask].
Qed.

Lemma shiftl_one_testbit (p i : Z) :
  0 <= p -> Z.testbit (Z.shiftl 1 p) i = (p =? i).
Proof. intros Hp. rewrite Z.shiftl_1_l. now apply Z.pow2_bits_eqb. Qed.

Lemma land_single_bit (x p : Z) :
  0 <= p ->
  Z.land x (Z.shiftl 1 p) = if Z.testbit x p then Z.shiftl 1 p else 0.
Proof.
  intros Hp. apply Z.bits_inj'. intros i Hi.
  rewrite Z.land_spec, shiftl_one_testbit by assumption.
  destruct (Z.eqb_spec p i) as [-> | Hne].
  - destruct (Z.testbit x i) eqn:Hx; simpl.
    + now rewrite shiftl_one_testbit, Z.eqb_refl.
    + now rewrite Z.bits_0.
  - rewrite andb_false_r.
    destruct (Z.testbit x p).
    + rewrite shiftl_one_testbit by assumption.
      symmetry. now apply Z.eqb_neq.
    + now rewrite Z.bits_0.
Qed.

(** X1. [setPin] overwrites: of two calls the last one decides, and a call
    on a constructed mapping gives what the constructor gives for the new
    pin value; the logical bit mask is carried along. *)
Theorem setPin_last_write_wins :
  forall (n p q bm : Z) (m : GamepadButtonMapping),
    setPin n p (setPin n q m) = setPin n p m /\
    setPin n p (GamepadButtonMapping_new n q bm)
      = GamepadButtonMapping_new n p bm.
Proof.
  intros n p q bm m. unfold setPin, GamepadButtonMapping_new.
  destruct (u8 p <? n), (u8 q <? n); split; reflexivity.
Qed.

(** X2. The mask of a mapping assigned to pin [p] selects the level of
    that pin and of no other: the conjunction of any word of sampled pin
    levels with it is the mask itself when bit [p] of the word is set, and
    zero otherwise. *)
Theorem pinMask_selects_pin_level :
  forall (n p bm levels : Z) (m : GamepadButtonMapping),
    n <= 32 ->
    0 <= p < n ->
    Z.land levels (pinMask (GamepadButtonMapping_new n p bm))
      = (if Z.testbit levels p then Z.shiftl 1 p else 0) /\
    Z.land levels (pinMask (setPin n p m))
      = (if Z.testbit levels p then Z.shiftl 1 p else 0) /\
    Z.shiftl 1 p <> 0.
Proof.
  intros n p bm levels m Hn Hp.
  rewrite new_pinMask, setPin_pinMask by assumption.
  split; [apply land_single_bit; lia |].
  split; [apply land_single_bit; lia |].
  rewrite Z.shiftl_1_l. apply Z.pow_nonzero; lia.
Qed.

Lemma pinMask_selects_pin_level_witness :
  RP2040_NUM_BANK0_GPIOS <= 32 /\
  0 <= 3 < RP2040_NUM_BANK0_GPIOS /\
  Z.land 12 (pinMask (GamepadButtonMapping_new RP2040_NUM_BANK0_GPIOS 3 2)) = 8 /\
  Z.land 4 (pinMask (setPin RP2040_NUM_BANK0_GPIOS 3 mapping_pin6)) = 0.
Proof.
  assert (Hn : RP2040_NUM_BANK0_GPIOS <= 32)
    by (unfold RP2040_NUM_BANK0_GPIOS; lia).
  assert (Hp : 0 <= 3 < RP2040_NUM_BANK0_GPIOS)
    by (unfold RP2040_NUM_BANK0_GPIOS; lia).
  split; [exact Hn | split; [exact Hp |]].
  split.
  - exact (proj1 (pinMask_selects_pin_level RP2040_NUM_BANK0_GPIOS 3 2 12
                    mapping_pin6 Hn Hp)).
  - exact (proj1 (proj2 (pinMask_selects_pin_level RP2040_NUM_BANK0_GPIOS 3 2 4
                           mapping_pin6 Hn Hp))).
Defined.

(** X3. Mappings assigned to different pins have disjoint masks, and the
    mask determines the pin: two assigned mappings with the same mask are
    on the same pin. *)
Theorem pinMask_separates_pins :
  forall (n p q bm bm' : Z),
    n <= 32 ->
    0 <= p < n ->
    0 <= q < n ->
    (p <> q ->
     Z.land (pinMask (GamepadButtonMapping_new n p bm))
            (pinMask (GamepadButtonMapping_new n q bm')) = 0) /\
    (pinMask (GamepadButtonMapping_new n p bm)
       = pinMask (GamepadButtonMapping_new n q bm') ->
     p = q).
Proof.
  intros n p q bm bm' Hn Hp Hq.
  rewrite !new_pinMask by assumption. split.
  - intros Hne. rewrite land_single_bit, shiftl_one_testbit by lia.
    destruct (Z.eqb_spec p q); [contradiction | reflexivity].
  - rewrite !Z.shiftl_1_l. apply Z.pow_inj_r; lia.
Qed.

Lemma pinMask_separates_pins_witness :
  RP2040_NUM_BANK0_GPIOS <= 32 /\
  0 <= 2 < RP2040_NUM_BANK0_GPIOS /\
  0 <= 29 < RP2040_NUM_BANK0_GPIOS /\
  2 <> 29 /\
  Z.land (pinMask (GamepadButtonMapping_new RP2040_NUM_BANK0_GPIOS 2 1))
         (pinMask (GamepadButtonMapping_new RP2040_NUM_BANK0_GPIOS 29 2)) = 0.
Proof.
  assert (Hn : RP2040_NUM_BANK0_GPIOS <= 32)
    by (unfold RP2040_NUM_BANK0_GPIOS; lia).
  assert (Hp : 0 <= 2 < RP2040_NUM_BANK0_GPIOS)
    by (unfold RP2040_NUM_BANK0_GPIOS; lia).
  assert (Hq : 0 <= 29 < RP2040_NUM_BANK0_GPIOS)
    by (unfold RP2040_NUM_BANK0_GPIOS; lia).
  assert (Hne : 2 <> 29) by lia.
  split; [exact Hn | split; [exact Hp | split; [exact Hq | split; [exact Hne |]]]].
  exact (proj1 (pinMask_separates_pins RP2040_NUM_BANK0_GPIOS 2 29 1 2 Hn Hp Hq)
           Hne).
Defined.

(** ** Bit tests: what the comparison with the mask means *)

(** The test [(x & mask) == mask] on a mask converted to [w] bits holds
    exactly when every bit of the mask below [w] is set in [x]. *)
Lemma contained_bits (w x mask : Z) :
  0 <= w ->
  (Z.land x (wrap w mask) =? wrap w mask) = true <->
  (forall i : Z, 0 <= i < w -> Z.testbit mask i = true -> Z.testbit x i = true).
Proof.
  intros Hw. rewrite Z.eqb_eq. split.
  - intros H i Hi Hm.
    assert (Hwm : Z.testbit (wrap w mask) i = true).
    { rewrite wrap_testbit, Hm by assumption.
      destruct (Z.ltb_spec i w); [reflexivity | lia]. }
    rewrite <- H, Z.land_spec in Hwm.
    apply andb_true_iff in Hwm. tauto.
  - intros H. apply Z.bits_inj'. intros i Hi.
    rewrite Z.land_spec, wrap_testbit by assumption.
    destruct (Z.ltb_spec i w) as [Hlt | Hge]; simpl.
    + destruct (Z.testbit mask i) eqn:Hm.
      * rewrite (H i) by (assumption || lia). reflexivity.
      * apply andb_false_r.
    + apply andb_false_r.
Qed.

Lemma contained_union (w x m1 m2 : Z) :
  0 <= w ->
  (Z.land x (wrap w (Z.lor m1 m2)) =? wrap w (Z.lor m1 m2))
    = (Z.land x (wrap w m1) =? wrap w m1) && (Z.land x (wrap w m2) =? wrap w m2).
Proof.
  intros Hw. apply eq_true_iff_eq.
  rewrite andb_true_iff, !contained_bits by assumption. split.
  - intros H. split; intros i Hi Hm; apply H; try assumption;
      rewrite Z.lor_spec, Hm; [reflexivity | apply orb_true_r].
  - intros [H1 H2] i Hi Hm. rewrite Z.lor_spec in Hm.
    apply orb_true_iff in Hm. destruct Hm; [apply H1 | apply H2]; assumption.
Qed.

Lemma land_eq_bits (x y : Z) :
  Z.land x y = y <->
  (forall i : Z, 0 <= i -> Z.testbit y i = true -> Z.testbit x i = true).
Proof.
  split.
  - intros H i Hi Hy. rewrite <- H, Z.land_spec in Hy.
    apply andb_true_iff in Hy. tauto.
  - intros H. apply Z.bits_inj'. intros i Hi. rewrite Z.land_spec.
    destruct (Z.testbit y i) eqn:Hy.
    + rewrite (H i Hi Hy). reflexivity.
    + apply andb_false_r.
Qed.

Lemma contained_mono (w x x' mask : Z) :
  0 <= w ->
  Z.land x' x = x ->
  (Z.land x (wrap w mask) =? wrap w mask) = true ->
  (Z.land x' (wrap w mask) =? wrap w mask) = true.
Proof.
  intros Hw Hsup. rewrite !contained_bits by assumption.
  intros H i Hi Hm. rewrite land_eq_bits in Hsup.
  apply Hsup; [lia |]. now apply H.
Qed.

(** X4. Each bit test of the controller answers whether every bit of the
    mask, as far as the parameter type reaches, is set in the state member
    it reads: 16 bits of the button, wired-button and auxiliary masks, 8
    bits of the two dpad masks. *)
Theorem pressed_iff_required_bits_set :
  forall (g : Gamepad) (mask : Z),
    (pressedButton g mask = true <->
     forall i, 0 <= i < 16 -> Z.testbit mask i = true ->
               Z.testbit (buttons (state g)) i = true) /\
    (activeWireB g mask = true <->
     forall i, 0 <= i < 16 -> Z.testbit mask i = true ->
               Z.testbit (bwires (state g)) i = true) /\
    (pressedDpad g mask = true <->
     forall i, 0 <= i < 8 -> Z.testbit mask i = true ->
               Z.testbit (dpad (state g)) i = true) /\
    (activeWireD g mask = true <->
     forall i, 0 <= i < 8 -> Z.testbit mask i = true ->
               Z.testbit (dwires (state g)) i = true) /\
    (pressedAux g mask = true <->
     forall i, 0 <= i < 16 -> Z.testbit mask i = true ->
               Z.testbit (aux (state g)) i = true).
Proof.
  intros g mask.
  unfold pressedButton, activeWireB, pressedDpad, activeWireD, pressedAux,
    u16, u8.
  repeat split; try (apply contained_bits; lia);
    intros H; apply contained_bits; (lia || exact H).
Qed.

Lemma pressed_iff_required_bits_set_witness :
  pressedButton sample_gamepad 768 = true /\
  0 <= 9 < 16 /\
  Z.testbit 768 9 = true /\
  Z.testbit (buttons (state sample_gamepad)) 9 = true.
Proof.
  assert (Hi : 0 <= 9 < 16) by lia.
  split; [reflexivity | split; [exact Hi | split; [reflexivity |]]].
  exact (proj1 (proj1 (pressed_iff_required_bits_set sample_gamepad 768))
           eq_refl 9 Hi eq_refl).
Defined.

(** X5. Testing the union of two masks is testing both: for every helper,
    the answer on [m1 | m2] is the conjunction of the answers on [m1] and
    on [m2]. *)
Theorem pressed_union_is_conjunction :
  forall (g : Gamepad) (m1 m2 : Z),
    pressedButton g (Z.lor m1 m2) = pressedButton g m1 && pressedButton g m2 /\
    activeWireB g (Z.lor m1 m2) = activeWireB g m1 && activeWireB g m2 /\
    pressedDpad g (Z.lor m1 m2) = pressedDpad g m1 && pressedDpad g m2 /\
    activeWireD g (Z.lor m1 m2) = activeWireD g m1 && activeWireD g m2 /\
    pressedAux g (Z.lor m1 m2) = pressedAux g m1 && pressedAux g m2.
Proof.
  intros g m1 m2.
  unfold pressedButton, activeWireB, pressedDpad, activeWireD, pressedAux,
    u16, u8.
  repeat split; apply contained_union; lia.
Qed.

(** X6. A chord stays satisfied when more inputs are pressed: if every
    button, dpad and auxiliary bit set in the state of [g] is set in the
    state of [g'], an entry pressed in [g] is pressed in [g']. *)
Theorem pressedHotkey_monotone :
  forall (g g' : Gamepad) (hotkey : HotkeyEntry),
    Z.land (buttons (state g')) (buttons (state g)) = buttons (state g) ->
    Z.land (dpad (state g')) (dpad (state g)) = dpad (state g) ->
    Z.land (aux (state g')) (aux (state g)) = aux (state g) ->
    pressedHotkey g hotkey = true ->
    pressedHotkey g' hotkey = true.
Proof.
  intros g g' hotkey Hb Hd Ha.
  unfold pressedHotkey, pressedButton, pressedDpad, pressedAux, u16, u8.
  rewrite !andb_true_iff. intros [[[Hact Hpb] Hpd] Hpa].
  repeat split.
  - exact Hact.
  - apply (contained_mono 16 _ _ _ ltac:(lia) Hb Hpb).
  - apply (contained_mono 8 _ _ _ ltac:(lia) Hd Hpd).
  - apply (contained_mono 16 _ _ _ ltac:(lia) Ha Hpa).
Qed.

Lemma pressedHotkey_monotone_witness :
  Z.land (buttons (state busy_gamepad)) (buttons (state sample_gamepad))
    = buttons (state sample_gamepad) /\
  Z.land (dpad (state busy_gamepad)) (dpad (state sample_gamepad))
    = dpad (state sample_gamepad) /\
  Z.land (aux (state busy_gamepad)) (aux (state sample_gamepad))
    = aux (state sample_gamepad) /\
  pressedHotkey sample_gamepad chord_up_s1_s2 = true /\
  pressedHotkey busy_gamepad chord_up_s1_s2 = true.
Proof.
  split; [reflexivity | split; [reflexivity | split; [reflexivity |]]].
  split; [reflexivity |].
  exact (pressedHotkey_monotone sample_gamepad busy_gamepad chord_up_s1_s2
           eq_refl eq_refl eq_refl eq_refl).
Defined.

(** X7. An entry that requires no bit (each mask is zero once converted to
    its helper's parameter type) matches in every state exactly when its
    action is nonzero. *)
Theorem pressedHotkey_empty_chord :
  forall (g : Gamepad) (hotkey : HotkeyEntry),
    u16 (buttonsMask hotkey) = 0 ->
    u8 (dpadMask hotkey) = 0 ->
    u16 (auxMask hotkey) = 0 ->
    pressedHotkey g hotkey = negb (action hotkey =? 0).
Proof.
  intros g hotkey Hb Hd Ha.
  unfold pressedHotkey, pressedButton, pressedDpad, pressedAux.
  rewrite Hb, Hd, Ha, !Z.land_0_r. simpl. now rewrite !andb_true_r.
Qed.

Lemma pressedHotkey_empty_chord_witness :
  u16 (buttonsMask (mkHotkeyEntry 0 7 65536 0)) = 0 /\
  u8 (dpadMask (mkHotkeyEntry 0 7 65536 0)) = 0 /\
  u16 (auxMask (mkHotkeyEntry 0 7 65536 0)) = 0 /\
  pressedHotkey busy_gamepad (mkHotkeyEntry 0 7 65536 0) = true.
Proof.
  split; [reflexivity | split; [reflexivity | split; [reflexivity |]]].
  exact (pressedHotkey_empty_chord busy_gamepad (mkHotkeyEntry 0 7 65536 0)
           eq_refl eq_refl eq_refl).
Defined.

(** ** Hotkey consumption: composition *)

Lemma clear_testbit (w x m i : Z) :
  0 <= w -> 0 <= i ->
  Z.testbit (wrap w (Z.land x (Z.lnot m))) i
    = (i <? w) && (Z.testbit x i && negb (Z.testbit m i)).
Proof.
  intros Hw Hi. now rewrite wrap_testbit, Z.land_spec, Z.lnot_spec.
Qed.

Lemma clear_twice (w x m : Z) :
  0 <= w ->
  wrap w (Z.land (wrap w (Z.land x (Z.lnot m))) (Z.lnot m))
    = wrap w (Z.land x (Z.lnot m)).
Proof.
  intros Hw. apply Z.bits_inj'. intros i Hi.
  rewrite !clear_testbit by assumption.
  destruct (i <? w), (Z.testbit x i), (Z.testbit m i); reflexivity.
Qed.

Lemma clear_swap (w x m1 m2 : Z) :
  0 <= w ->
  wrap w (Z.land (wrap w (Z.land x (Z.lnot m1))) (Z.lnot m2))
    = wrap w (Z.land (wrap w (Z.land x (Z.lnot m2))) (Z.lnot m1)).
Proof.
  intros Hw. apply Z.bits_inj'. intros i Hi.
  rewrite !clear_testbit by assumption.
  destruct (i <? w), (Z.testbit x i), (Z.testbit m1 i), (Z.testbit m2 i);
    reflexivity.
Qed.

(** X8. Consuming is idempotent and order-independent: consuming an entry
    a second time changes nothing more, and two entries consumed in either
    order leave the same controller. *)
Theorem selectHotkey_idempotent_and_commutes :
  forall (g : Gamepad) (h1 h2 : HotkeyEntry),
    snd (selectHotkey (snd (selectHotkey g h1)) h1) = snd (selectHotkey g h1) /\
    snd (selectHotkey (snd (selectHotkey g h1)) h2)
      = snd (selectHotkey (snd (selectHotkey g h2)) h1).
Proof.
  intros g h1 h2. unfold selectHotkey, with_state, u16, u8. cbn.
  split.
  - now rewrite !clear_twice by lia.
  - now rewrite (clear_swap 16 _ (buttonsMask h1)),
               (clear_swap 8 _ (dpadMask h1)) by lia.
Qed.

(** X9. Consuming an entry only releases inputs.  A button or dpad mask
    that tests pressed afterwards tested pressed before, and a mask that
    shares no bit with the chord tests the same before and after. *)
Theorem selectHotkey_only_releases :
  forall (g : Gamepad) (hotkey : HotkeyEntry) (mask : Z),
    (pressedButton (snd (selectHotkey g hotkey)) mask = true ->
     pressedButton g mask = true) /\
    (pressedDpad (snd (selectHotkey g hotkey)) mask = true ->
     pressedDpad g mask = true) /\
    (Z.land mask (buttonsMask hotkey) = 0 ->
     pressedButton (snd (selectHotkey g hotkey)) mask = pressedButton g mask) /\
    (Z.land mask (dpadMask hotkey) = 0 ->
     pressedDpad (snd (selectHotkey g hotkey)) mask = pressedDpad g mask).
Proof.
  intros g hotkey mask.
  unfold pressedButton, pressedDpad, selectHotkey, with_state, u16, u8. cbn.
  assert (Hsub : forall w x m,
             0 <= w ->
             (Z.land (wrap w (Z.land x (Z.lnot m))) (wrap w mask) =? wrap w mask)
               = true ->
             (Z.land x (wrap w mask) =? wrap w mask) = true).
  { intros w x m Hw. rewrite !contained_bits by assumption.
    intros H i Hi Hm. specialize (H i Hi Hm).
    rewrite clear_testbit in H by lia.
    apply andb_true_iff in H. destruct H as [_ H].
    apply andb_true_iff in H. tauto. }
  assert (Hdisj : forall w x m,
             0 <= w ->
             Z.land mask m = 0 ->
             (Z.land (wrap w (Z.land x (Z.lnot m))) (wrap w mask) =? wrap w mask)
               = (Z.land x (wrap w mask) =? wrap w mask)).
  { intros w x m Hw Hzero. apply eq_true_iff_eq. split; [now apply Hsub |].
    rewrite !contained_bits by assumption.
    intros H i Hi Hm.
    assert (Hmi : Z.testbit m i = false).
    { assert (Hz : Z.testbit (Z.land mask m) i = false)
        by (rewrite Hzero; apply Z.bits_0).
      rewrite Z.land_spec, Hm in Hz. exact Hz. }
    rewrite clear_testbit, Hmi, (H i Hi Hm) by lia.
    destruct (Z.ltb_spec i w); [reflexivity | lia]. }
  repeat split.
  - apply Hsub. lia.
  - apply Hsub. lia.
  - apply Hdisj. lia.
  - apply Hdisj. lia.
Qed.

Lemma selectHotkey_only_releases_witness :
  pressedButton (snd (selectHotkey busy_gamepad chord_s1)) 513 = true /\
  pressedButton busy_gamepad 513 = true /\
  Z.land 513 (buttonsMask chord_s1) = 0 /\
  pressedButton (snd (selectHotkey busy_gamepad chord_s1)) 513
    = pressedButton busy_gamepad 513.
Proof.
  pose proof (selectHotkey_only_releases busy_gamepad chord_s1 513)
    as (Hsub & _ & Hdisj & _).
  split; [reflexivity |].
  split; [exact (Hsub eq_refl) |].
  split; [reflexivity |].
  exact (Hdisj eq_refl).
Defined.

Lemma cleared_test (w x m : Z) :
  0 <= w ->
  (Z.land (wrap w (Z.land x (Z.lnot m))) (wrap w m) =? wrap w m)
    = (wrap w m =? 0).
Proof.
  intros Hw.
  assert (Hzero : Z.land (wrap w (Z.land x (Z.lnot m))) (wrap w m) = 0).
  { apply Z.bits_inj'. intros i Hi.
    rewrite Z.land_spec, clear_testbit, wrap_testbit, Z.bits_0 by assumption.
    destruct (i <? w), (Z.testbit x i), (Z.testbit m i); reflexivity. }
  rewrite Hzero. apply Z.eqb_sym.
Qed.

(** X10. Whether a consumed entry is still pressed: after [selectHotkey]
    the entry tests pressed exactly when it was pressed and requires no
    button and no dpad bit.  A chord with a button or dpad bit cannot match
    again on the state it was consumed from; a chord on auxiliary bits
    alone still does. *)
Theorem pressedHotkey_after_selectHotkey :
  forall (g : Gamepad) (hotkey : HotkeyEntry),
    pressedHotkey (snd (selectHotkey g hotkey)) hotkey
      = pressedHotkey g hotkey
        && (u16 (buttonsMask hotkey) =? 0)
        && (u8 (dpadMask hotkey) =? 0).
Proof.
  intros g hotkey.
  unfold pressedHotkey, pressedButton, pressedDpad, pressedAux, selectHotkey,
    with_state, u16, u8.
  cbn.
  rewrite (cleared_test 16), (cleared_test 8) by lia.
  destruct (Z.eqb_spec (wrap 16 (buttonsMask hotkey)) 0) as [Hb | Hb].
  - rewrite Hb, Z.land_0_r.
    destruct (Z.eqb_spec (wrap 8 (dpadMask hotkey)) 0) as [Hd | Hd].
    + rewrite Hd, Z.land_0_r. cbn. now rewrite !andb_true_r.
    + cbn. now rewrite !andb_false_r.
  - cbn. now rewrite !andb_false_r.
Qed.

(** The sample chords after their own consumption. *)
Example pressedHotkey_after_selectHotkey_samples :
  pressedHotkey (snd (selectHotkey busy_gamepad chord_up_s1_s2)) chord_up_s1_s2
    = false /\
  pressedHotkey busy_gamepad chord_aux = true /\
  pressedHotkey (snd (selectHotkey busy_gamepad chord_aux)) chord_aux = true.
Proof. repeat split. Qed.

Lemma cleared_disjoint_test (w x m mask : Z) :
  0 <= w ->
  Z.land mask m = 0 ->
  (Z.land (wrap w (Z.land x (Z.lnot m))) (wrap w mask) =? wrap w mask)
    = (Z.land x (wrap w mask) =? wrap w mask).
Proof.
  intros Hw Hzero. apply eq_true_iff_eq.
  rewrite !contained_bits by assumption.
  assert (Hm : forall i, Z.testbit mask i = true -> Z.testbit m i = false).
  { intros i Hi.
    assert (Hz : Z.testbit (Z.land mask m) i = false)
      by (rewrite Hzero; apply Z.bits_0).
    rewrite Z.land_spec, Hi in Hz. exact Hz. }
  split; intros H i Hi Hmask; specialize (H i Hi Hmask).
  - rewrite clear_testbit in H by lia.
    apply andb_true_iff in H. destruct H as [_ H].
    apply andb_true_iff in H. tauto.
  - rewrite clear_testbit, (Hm i Hmask), H by lia.
    destruct (Z.ltb_spec i w); [reflexivity | lia].
Qed.

Lemma cleared_overlap_test (w x m mask i : Z) :
  0 <= i < w ->
  Z.testbit m i = true ->
  Z.testbit mask i = true ->
  (Z.land (wrap w (Z.land x (Z.lnot m))) (wrap w mask) =? wrap w mask) = false.
Proof.
  intros Hi Hm Hmask. apply not_true_is_false.
  rewrite contained_bits by lia. intros H.
  specialize (H i Hi Hmask).
  rewrite clear_testbit, Hm in H by lia.
  rewrite !andb_false_r in H. discriminate.
Qed.

(** X11. What consuming one entry does to another.  An entry that shares
    no button bit and no dpad bit with the consumed one tests as before.
    An entry that shares a button bit (below bit 16) or a dpad bit (below
    bit 8) with the consumed one does not match afterwards. *)
Theorem selectHotkey_effect_on_other_entry :
  forall (g : Gamepad) (consumed other : HotkeyEntry),
    (Z.land (buttonsMask other) (buttonsMask consumed) = 0 ->
     Z.land (dpadMask other) (dpadMask consumed) = 0 ->
     pressedHotkey (snd (selectHotkey g consumed)) other
       = pressedHotkey g other) /\
    (forall i : Z,
       0 <= i < 16 ->
       Z.testbit (buttonsMask consumed) i = true ->
       Z.testbit (buttonsMask other) i = true ->
       pressedHotkey (snd (selectHotkey g consumed)) other = false) /\
    (forall i : Z,
       0 <= i < 8 ->
       Z.testbit (dpadMask consumed) i = true ->
       Z.testbit (dpadMask other) i = true ->
       pressedHotkey (snd (selectHotkey g consumed)) other = false).
Proof.
  intros g consumed other.
  unfold pressedHotkey, pressedButton, pressedDpad, pressedAux, selectHotkey,
    with_state, u16, u8.
  cbn. split; [| split].
  - intros Hb Hd.
    now rewrite (cleared_disjoint_test 16), (cleared_disjoint_test 8)
      by (lia || assumption).
  - intros i Hi Hc Ho.
    rewrite (cleared_overlap_test 16 _ _ _ i Hi Hc Ho).
    now rewrite andb_false_r.
  - intros i Hi Hc Ho.
    rewrite (cleared_overlap_test 8 _ _ _ i Hi Hc Ho).
    now rewrite andb_false_r, andb_false_l.
Qed.

Lemma selectHotkey_effect_on_other_entry_witness :
  Z.land (buttonsMask chord_aux) (buttonsMask chord_up_s1_s2) = 0 /\
  Z.land (dpadMask chord_aux) (dpadMask chord_up_s1_s2) = 0 /\
  pressedHotkey (snd (selectHotkey busy_gamepad chord_up_s1_s2)) chord_aux
    = pressedHotkey busy_gamepad chord_aux /\
  0 <= 8 < 16 /\
  Z.testbit (buttonsMask chord_up_s1_s2) 8 = true /\
  Z.testbit (buttonsMask chord_s1) 8 = true /\
  pressedHotkey (snd (selectHotkey busy_gamepad chord_up_s1_s2)) chord_s1
    = false.
Proof.
  pose proof (selectHotkey_effect_on_other_entry busy_gamepad chord_up_s1_s2
                chord_aux) as (Hdisj & _).
  pose proof (selectHotkey_effect_on_other_entry busy_gamepad chord_up_s1_s2
                chord_s1) as (_ & Hover & _).
  assert (Hi : 0 <= 8 < 16) by lia.
  split; [reflexivity | split; [reflexivity |]].
  split; [exact (Hdisj eq_refl eq_refl) |].
  split; [exact Hi | split; [reflexivity | split; [reflexivity |]]].
  exact (Hover 8 Hi eq_refl eq_refl).
Defined.

(** ** Mode setters and policy resolution *)

Lemma callSetters_options (cs : list ModeCall) :
  forall g : Gamepad,
    getOptions (callSetters cs g)
      = mkGamepadOptions
          (lastInputMode cs (inputMode (getOptions g)))
          (lastDpadMode cs (dpadMode (getOptions g)))
          (lastSOCDMode cs (socdMode (getOptions g))).
Proof.
  induction cs as [| c cs IH]; intros g.
  - simpl. unfold getOptions. destruct (options g). reflexivity.
  - simpl. rewrite IH. destruct c; reflexivity.
Qed.

Lemma callSetters_frame (cs : list ModeCall) :
  forall g : Gamepad,
    state (callSetters cs g) = state g /\
    rawState (callSetters cs g) = rawState g /\
    lastAction (callSetters cs g) = lastAction g /\
    hotkeyOptions (callSetters cs g) = hotkeyOptions g /\
    debouncer (callSetters cs g) = debouncer g /\
    debounceMS (callSetters cs g) = debounceMS g /\
    gamepadMappings (callSetters cs g) = gamepadMappings g.
Proof.
  induction cs as [| c cs IH]; intros g.
  - repeat split.
  - simpl. destruct (IH (callSetter c g)) as (H1 & H2 & H3 & H4 & H5 & H6 & H7).
    rewrite H1, H2, H3, H4, H5, H6, H7. destruct c; repeat split.
Qed.

(** X12. After any sequence of calls of [setInputMode], [setSOCDMode] and
    [setDpadMode], [getOptions] holds for each member the argument of the
    last call of its setter, or the member's old value when its setter was
    not called; the calls touch nothing but the options. *)
Theorem setters_last_write_wins :
  forall (cs : list ModeCall) (g : Gamepad),
    getOptions (callSetters cs g)
      = mkGamepadOptions
          (lastInputMode cs (inputMode (getOptions g)))
          (lastDpadMode cs (dpadMode (getOptions g)))
          (lastSOCDMode cs (socdMode (getOptions g))) /\
    state (callSetters cs g) = state g /\
    rawState (callSetters cs g) = rawState g /\
    lastAction (callSetters cs g) = lastAction g /\
    hotkeyOptions (callSetters cs g) = hotkeyOptions g /\
    debouncer (callSetters cs g) = debouncer g /\
    debounceMS (callSetters cs g) = debounceMS g /\
    gamepadMappings (callSetters cs g) = gamepadMappings g.
Proof.
  intros cs g. split; [apply callSetters_options | apply callSetters_frame].
Qed.

(** X13. The coercion of Bypass leaves no trace in the options: whatever
    setters were called before, the mode resolved after [setInputMode m] is
    the one resolved from [m] and the policy of the last [setSOCDMode]
    call, so a Bypass policy masked as Neutral under HID, Switch or PS4 is
    Bypass again as soon as the input mode leaves that set. *)
Theorem resolveSOCDMode_after_setters :
  forall (cs : list ModeCall) (m : InputMode) (g : Gamepad),
    resolveSOCDMode (getOptions (setInputMode m (callSetters cs g)))
      = resolveSOCDMode
          (mkGamepadOptions m 0 (lastSOCDMode cs (socdMode (getOptions g)))) /\
    (lastSOCDMode cs (socdMode (getOptions g)) = SOCD_MODE_BYPASS ->
     ~ In m socdCleanRequired ->
     resolveSOCDMode (getOptions (setInputMode m (callSetters cs g)))
       = SOCD_MODE_BYPASS).
Proof.
  intros cs m g.
  assert (Hopt : getOptions (setInputMode m (callSetters cs g))
                 = mkGamepadOptions m
                     (lastDpadMode cs (dpadMode (getOptions g)))
                     (lastSOCDMode cs (socdMode (getOptions g)))).
  { change (getOptions (setInputMode m (callSetters cs g)))
      with (mkGamepadOptions m
              (dpadMode (getOptions (callSetters cs g)))
              (socdMode (getOptions (callSetters cs g)))).
    now rewrite callSetters_options. }
  rewrite Hopt. split; [reflexivity |].
  intros Hs Hout. unfold resolveSOCDMode. cbn [socdMode inputMode].
  rewrite <- clean_required_test in Hout.
  apply not_true_is_false in Hout. rewrite Hout, andb_false_r. exact Hs.
Qed.

Lemma resolveSOCDMode_after_setters_witness :
  lastSOCDMode [CallSetSOCDMode SOCD_MODE_BYPASS; CallSetInputMode INPUT_MODE_PS4]
    (socdMode (getOptions sample_gamepad)) = SOCD_MODE_BYPASS /\
  ~ In INPUT_MODE_KEYBOARD socdCleanRequired /\
  resolveSOCDMode
    (getOptions
       (callSetters
          [CallSetSOCDMode SOCD_MODE_BYPASS; CallSetInputMode INPUT_MODE_PS4]
          sample_gamepad))
    = SOCD_MODE_NEUTRAL /\
  resolveSOCDMode
    (getOptions
       (setInputMode INPUT_MODE_KEYBOARD
          (callSetters
             [CallSetSOCDMode SOCD_MODE_BYPASS; CallSetInputMode INPUT_MODE_PS4]
             sample_gamepad)))
    = SOCD_MODE_BYPASS.
Proof.
  assert (Hout : ~ In INPUT_MODE_KEYBOARD socdCleanRequired).
  { simpl. intros [H | [H | [H | []]]]; discriminate H. }
  split; [reflexivity | split; [exact Hout | split; [reflexivity |]]].
  exact (proj2 (resolveSOCDMode_after_setters
                  [CallSetSOCDMode SOCD_MODE_BYPASS;
                   CallSetInputMode INPUT_MODE_PS4]
                  INPUT_MODE_KEYBOARD sample_gamepad) eq_refl Hout).
Defined.

(** X14. Resolution is idempotent: storing the resolved mode with
    [setSOCDMode] and resolving again gives the same mode, and the resolved
    mode is always the configured policy or Neutral. *)
Theorem resolveSOCDMode_idempotent :
  forall g : Gamepad,
    resolveSOCDMode
      (getOptions (setSOCDMode (resolveSOCDMode (getOptions g)) g))
      = resolveSOCDMode (getOptions g) /\
    (resolveSOCDMode (getOptions g) = socdMode (getOptions g) \/
     resolveSOCDMode (getOptions g) = SOCD_MODE_NEUTRAL).
Proof.
  intros g. unfold getOptions, setSOCDMode, with_options. cbn [options].
  destruct (options g) as [i d s]. unfold resolveSOCDMode. cbn.
  destruct s, i; cbn; split; auto.
Qed.
